(** * Turismo Jalisco dashboard: the data ingestion and synchronisation core

    A shallow embedding of [TurismoDataManager] (src/app.js): the CSV
    scanner [parseCSVText], the record normaliser [parseCSVData], the rolling
    fingerprint and the gated sync cycle [updateData], followed by the
    properties the specification states about them.

    JavaScript strings are sequences of UTF-16 code units, numbers are IEEE
    binary64 values, the snapshot [turismoDatos] is a plain object living in a
    heap, and an [await] is the point where the environment supplies the
    outcome of the fetch.

    src/app.js carries two revisions of the script.  The embedding follows
    the final one (lines 1-543); the class of the earlier one (from line 544)
    differs from it in the row filter of [parseCSVText] only, which module
    [Mejorada] keeps. *)

From Stdlib Require Import ZArith NArith List Bool Lia String Ascii.
From Stdlib Require Import Floats.SpecFloat.
From stdpp Require Import base option list gmap.
Import ListNotations.

Local Open Scope Z_scope.

(** ** JavaScript strings *)

(** A string is the list of its UTF-16 code units ([charCodeAt] values). *)
Abbreviation jsstring := (list N).

(** An ASCII literal as a JavaScript string. *)
Definition js (s : string) : jsstring :=
  List.map N_of_ascii (list_ascii_of_string s).

Definition QUOTE : N := 34.   (* the double quote *)
Definition COMMA : N := 44.   (* ',' *)
Definition DOT : N := 46.     (* '.' *)
Definition LF : N := 10.      (* '\n' *)
Definition CR : N := 13.      (* '\r' *)

(** WhiteSpace and LineTerminator code points, the ones
    [String.prototype.trim] strips. *)
Definition isWhiteSpace (c : N) : bool :=
  ((c =? 9) || (c =? 10) || (c =? 11) || (c =? 12) || (c =? 13) || (c =? 32)
   || (c =? 160) || (c =? 5760) || ((8192 <=? c) && (c <=? 8202))
   || (c =? 8232) || (c =? 8233) || (c =? 8239) || (c =? 8287)
   || (c =? 12288) || (c =? 65279))%N.

Fixpoint trimStart (s : jsstring) : jsstring :=
  match s with
  | c :: rest => if isWhiteSpace c then trimStart rest else s
  | [] => []
  end.

Definition trimEnd (s : jsstring) : jsstring := rev (trimStart (rev s)).

(** [s.trim()] *)
Definition trim (s : jsstring) : jsstring := trimEnd (trimStart s).

(** Truthiness of a string: the empty string is the only falsy one. *)
Definition truthy (s : jsstring) : bool :=
  match s with [] => false | _ => true end.

(** [s || dflt] on strings. *)
Definition orDefault (s dflt : jsstring) : jsstring :=
  if truthy s then s else dflt.

(** [s.replace(a, b)] with one-character string arguments: only the first
    occurrence is rewritten. *)
Fixpoint replaceFirst (a b : N) (s : jsstring) : jsstring :=
  match s with
  | [] => []
  | c :: rest => if (c =? a)%N then b :: rest else c :: replaceFirst a b rest
  end.

(** ** The CSV scanner: [parseCSVText] *)

Abbreviation Row := (list jsstring).

(** The four local variables of [parseCSVText]. *)
Record Scanner := mkScanner {
  rows : list Row;
  currentRow : Row;
  currentField : jsstring;
  inQuotes : bool
}.

Definition initScanner : Scanner :=
  {| rows := []; currentRow := []; currentField := []; inQuotes := false |}.

Definition isQuote (o : option N) : bool :=
  match o with Some c => (c =? QUOTE)%N | None => false end.

Definition isLF (o : option N) : bool :=
  match o with Some c => (c =? LF)%N | None => false end.

Section Scan.
(** The callback given to [currentRow.some]: the final revision keeps a row
    when a field has [field.trim().length > 0], the earlier revision when
    [f.length > 0]. *)
Variable hasContent : jsstring -> bool.

(** [rows] after the guarded push of the finished row:
<<
    currentRow.push(currentField);
    if (currentRow.some(...)) { rows.push(currentRow); }
>> *)
Definition pushRow (st : Scanner) : list Row :=
  let finished := currentRow st ++ [currentField st] in
  if existsb hasContent finished then rows st ++ [finished] else rows st.

(** [if (currentField || currentRow.length > 0)] *)
Definition pending (st : Scanner) : bool :=
  truthy (currentField st) || (0 <? length (currentRow st))%nat.

(** The line-break branch, up to the [\r\n] look-ahead. *)
Definition endRow (st : Scanner) : Scanner :=
  if pending st then
    {| rows := pushRow st; currentRow := []; currentField := [];
       inQuotes := inQuotes st |}
  else st.

(** One iteration of the [for] loop on [char = csvText[i]] and
    [nextChar = csvText[i + 1]] ([None] for [undefined]).  The boolean
    tells whether the body executed its own [i++]. *)
Definition step (char : N) (nextChar : option N) (st : Scanner)
  : Scanner * bool :=
  if (char =? QUOTE)%N then
    if inQuotes st && isQuote nextChar then
      ({| rows := rows st; currentRow := currentRow st;
          currentField := currentField st ++ [QUOTE];
          inQuotes := inQuotes st |}, true)
    else
      ({| rows := rows st; currentRow := currentRow st;
          currentField := currentField st;
          inQuotes := negb (inQuotes st) |}, false)
  else if (char =? COMMA)%N && negb (inQuotes st) then
    ({| rows := rows st; currentRow := currentRow st ++ [currentField st];
        currentField := []; inQuotes := inQuotes st |}, false)
  else if ((char =? LF)%N || (char =? CR)%N) && negb (inQuotes st) then
    (endRow st, (char =? CR)%N && isLF nextChar)
  else
    ({| rows := rows st; currentRow := currentRow st;
        currentField := currentField st ++ [char];
        inQuotes := inQuotes st |}, false).

(** The loop over the remaining input [csvText.slice(i)]. *)
Fixpoint scan (text : jsstring) (st : Scanner) : Scanner :=
  match text with
  | [] => st
  | char :: rest =>
      let '(st', skip) := step char (head rest) st in
      match skip, rest with
      | true, _ :: rest' => scan rest' st'
      | _, _ => scan rest st'
      end
  end.

(** The [for] loop as it is written, with the index [i] and a bound on the
    number of iterations; [None] when the bound is exhausted before
    [i < csvText.length] fails. *)
Fixpoint forLoop (fuel : nat) (csvText : jsstring) (i : nat) (st : Scanner)
  : option Scanner :=
  match csvText !! i with
  | None => Some st
  | Some char =>
      match fuel with
      | O => None
      | S fuel' =>
          let '(st', skip) := step char (csvText !! S i) st in
          forLoop fuel' csvText (S (if skip then S i else i)) st'
      end
  end.

(** The flush after the loop. *)
Definition flush (st : Scanner) : list Row :=
  if pending st then pushRow st else rows st.

Definition parseCSVTextWith (csvText : jsstring) : list Row :=
  flush (scan csvText initScanner).
End Scan.

(** [field => field.trim().length > 0] (lines 228 and 244). *)
Definition nonBlank (field : jsstring) : bool :=
  (0 <? length (trim field))%nat.

(** [parseCSVText] of the final revision (lines 205-250). *)
Definition parseCSVText (csvText : jsstring) : list Row :=
  parseCSVTextWith nonBlank csvText.

(** The earlier revision kept in the same file (lines 778-829) tests
    [f.length > 0] instead. *)
Module Mejorada.
Definition nonEmpty (f : jsstring) : bool := (0 <? length f)%nat.

Definition parseCSVText (csvText : jsstring) : list Row :=
  parseCSVTextWith nonEmpty csvText.
End Mejorada.

(** ** Numbers

    A JavaScript number is an IEEE 754 binary64 value; [spec_float] is the
    Standard Library's specification of them (a single NaN, signed zeros and
    infinities, finite values [m * 2 ^ e]). *)

Abbreviation number := spec_float.

Definition prec : Z := 53.
Definition emax : Z := 1024.

Definition isNaN (x : number) : bool :=
  match x with S754_nan => true | _ => false end.

Definition isFinite (x : number) : bool :=
  match x with S754_zero _ | S754_finite _ _ _ => true | _ => false end.

(** The number value of the decimal [(-1)^neg * m * 10^e]: the binary64
    value nearest to it, ties to even, overflowing to an infinity. *)
Definition decimalValue (neg : bool) (m : N) (e : Z) : number :=
  match m with
  | N0 => S754_zero neg
  | Npos p =>
      if 0 <=? e then binary_round prec emax neg (Z.to_pos (Zpos p * 10 ^ e)) 0
      else SFdiv prec emax (S754_finite neg p 0)
                           (S754_finite false (Z.to_pos (10 ^ (- e))) 0)
  end.

Definition isDigit (c : N) : bool := ((48 <=? c) && (c <=? 57))%N.

(** The longest prefix of decimal digits, and what follows it. *)
Fixpoint takeDigits (s : jsstring) : jsstring * jsstring :=
  match s with
  | c :: rest =>
      if isDigit c then let '(ds, r) := takeDigits rest in (c :: ds, r)
      else ([], s)
  | [] => ([], [])
  end.

Definition digitsValue (ds : jsstring) : N :=
  fold_left (fun acc d => (10 * acc + (d - 48))%N) ds 0%N.

Fixpoint startsWith (p s : jsstring) : bool :=
  match p, s with
  | [], _ => true
  | a :: p', b :: s' => (a =? b)%N && startsWith p' s'
  | _ :: _, [] => false
  end.

(** The value of the exponent part at the head of [s], [0] when [s] does not
    start with a complete ExponentPart (which then stays outside the parsed
    prefix). *)
Definition exponentPart (s : jsstring) : Z :=
  match s with
  | c :: r =>
      if ((c =? 101) || (c =? 69))%N then
        let '(neg, r') :=
          match r with
          | d :: t => if (d =? 43)%N then (false, t)
                      else if (d =? 45)%N then (true, t) else (false, r)
          | [] => (false, r)
          end in
        let '(ds, _) := takeDigits r' in
        match ds with
        | [] => 0
        | _ => if neg then - Z.of_N (digitsValue ds) else Z.of_N (digitsValue ds)
        end
      else 0
  | [] => 0
  end.

(** The longest prefix that is a StrUnsignedDecimalLiteral, evaluated. *)
Definition parseUnsigned (neg : bool) (s : jsstring) : number :=
  if startsWith (js "Infinity") s then S754_infinity neg
  else
    let '(ip, r1) := takeDigits s in
    let '(fp, r2) :=
      match r1 with
      | c :: r => if (c =? DOT)%N then takeDigits r else ([], r1)
      | [] => ([], [])
      end in
    match ip ++ fp with
    | [] => S754_nan
    | ds => decimalValue neg (digitsValue ds)
                         (exponentPart r2 - Z.of_nat (length fp))
    end.

(** The global [parseFloat] applied to a string. *)
Definition parseFloat (s : jsstring) : number :=
  let t := trimStart s in
  match t with
  | c :: r =>
      if (c =? 43)%N then parseUnsigned false r
      else if (c =? 45)%N then parseUnsigned true r
      else parseUnsigned false t
  | [] => S754_nan
  end.

(** ** The record normaliser: [parseCSVData] *)

Record Pueblo := mkPueblo {
  nombre : jsstring;
  latitud : number;
  longitud : number;
  seguridad : jsstring;
  securityTips : jsstring;
  distancia : jsstring;
  ruta : jsstring;
  linkTurismo : jsstring
}.

Definition nombreIndex : nat := 1.
Definition latitudIndex : nat := 2.
Definition longitudIndex : nat := 3.
Definition seguridadIndex : nat := 4.
Definition distanciaIndex : nat := 5.
Definition rutaIndex : nat := 6.
Definition linkTurismoIndex : nat := 7.
Definition securityTipsIndex : nat := 8.

(** [index >= 0 && index < row.length ? row[index].trim() : ''] *)
Definition cell (index : nat) (row : Row) : jsstring :=
  match row !! index with
  | Some field => trim field
  | None => []
  end.

(** 'Información no disponible' *)
Definition informacionNoDisponible : jsstring :=
  js "Informaci" ++ [243%N] ++ js "n no disponible".

(** The body of the loop over the data rows: [None] stands for [continue]. *)
Definition processRow (row : Row) : option Pueblo :=
  let nombre := cell nombreIndex row in
  let latitudStr := cell latitudIndex row in
  let longitudStr := cell longitudIndex row in
  let seguridad := cell seguridadIndex row in
  let distancia := cell distanciaIndex row in
  let ruta := cell rutaIndex row in
  let linkTurismo := cell linkTurismoIndex row in
  let securityTips := cell securityTipsIndex row in
  if negb (truthy nombre) || negb (truthy latitudStr)
     || negb (truthy longitudStr) then None
  else
    let latitud := parseFloat (replaceFirst COMMA DOT latitudStr) in
    let longitud := parseFloat (replaceFirst COMMA DOT longitudStr) in
    if isNaN latitud || isNaN longitud then None
    else
      Some {| nombre := nombre;
              latitud := latitud;
              longitud := longitud;
              seguridad := orDefault seguridad informacionNoDisponible;
              securityTips := orDefault securityTips (js "Information not available");
              distancia := orDefault distancia (js "N/A");
              ruta := orDefault ruta (js "#");
              linkTurismo := orDefault linkTurismo (js "#") |}.

(** The rows are those of [parseCSVText]; row 0 is the header, whose text is
    only trimmed and lower-cased, never consulted. *)
Definition parseCSVData (csvText : jsstring) : list Pueblo :=
  let rows := parseCSVText csvText in
  if (length rows <? 2)%nat then [] else omap processRow (drop 1 rows).

(** ** [JSON.stringify] of the dataset *)

#[global] Instance number_eq_dec : EqDecision number.
Proof. solve_decision. Defined.

#[global] Instance Pueblo_eq_dec : EqDecision Pueblo.
Proof. solve_decision. Defined.

Fixpoint decimalDigits (fuel : nat) (n : Z) (acc : jsstring) : jsstring :=
  match fuel with
  | O => acc
  | S fuel' =>
      let acc' := Z.to_N (48 + n mod 10) :: acc in
      if n / 10 =? 0 then acc' else decimalDigits fuel' (n / 10) acc'
  end.

(** The decimal numeral of a non-negative integer. *)
Definition decimalString (n : Z) : jsstring :=
  decimalDigits (S (Z.to_nat (Z.log2 n))) n [].

Fixpoint stripZeros (rev_digits : jsstring) : jsstring :=
  match rev_digits with
  | c :: rest => if (c =? 48)%N then stripZeros rest else rev_digits
  | [] => []
  end.

(** The digits and the decimal exponent [n] of Number::toString: the
    shortest digit string [s] with [s * 10^(n - k)] rounding to
    [m * 2^e], the closest one when several have that length. *)
Section Shortest.
Variables (m : positive) (e : Z).

Let num : Z := if 0 <=? e then Zpos m * 2 ^ e else Zpos m.
Let den : Z := if 0 <=? e then 1 else 2 ^ (- e).

Definition decimalExponent : Z :=
  let n0 := Z.of_nat (length (decimalString num))
            - Z.of_nat (length (decimalString den)) in
  let below := if 0 <=? n0 then num <? den * 10 ^ n0
               else num * 10 ^ (- n0) <? den in
  if below then n0 else n0 + 1.

Definition roundsBack (s p : Z) : bool :=
  bool_decide (decimalValue false (Z.to_N s) p = S754_finite false m e).

(** The candidate with [k] digits, if one rounds back. *)
Definition candidate (n k : Z) : option Z :=
  let p := n - k in
  let '(q, r) := Z.div_eucl (num * 10 ^ Z.max 0 (- p)) (den * 10 ^ Z.max 0 p) in
  let d := den * 10 ^ Z.max 0 p in
  let lower := roundsBack q p in
  let upper := roundsBack (q + 1) p in
  let preferUpper :=
    match 2 * r ?= d with
    | Lt => false
    | Gt => true
    | Eq => Z.odd q
    end in
  if lower && upper then Some (if preferUpper then q + 1 else q)
  else if lower then Some q
  else if upper then Some (q + 1)
  else None.

Fixpoint shortestFrom (fuel : nat) (n k : Z) : Z * Z :=
  match candidate n k, fuel with
  | Some s, _ => (s, k)
  | None, S fuel' => shortestFrom fuel' n (k + 1)
  | None, O => (fst (Z.div_eucl (num * 10 ^ Z.max 0 (k - n))
                                (den * 10 ^ Z.max 0 (n - k))), k)
  end.

(** The digits without trailing zeros, and [n]. *)
Definition shortestDigits : jsstring * Z :=
  let n := decimalExponent in
  let '(s, k) := shortestFrom 16 n 1 in
  let ds := decimalString s in
  (rev (stripZeros (rev ds)), n + (Z.of_nat (length ds) - k)).
End Shortest.

(** Number::toString of a positive finite value, from its digits. *)
Definition formatDigits (ds : jsstring) (n : Z) : jsstring :=
  let k := Z.of_nat (length ds) in
  if (k <=? n) && (n <=? 21) then ds ++ repeat 48%N (Z.to_nat (n - k))
  else if (0 <? n) && (n <=? 21) then
    take (Z.to_nat n) ds ++ [DOT] ++ drop (Z.to_nat n) ds
  else if (-6 <? n) && (n <=? 0) then
    [48%N; DOT] ++ repeat 48%N (Z.to_nat (- n)) ++ ds
  else
    let expo := [101%N; if n - 1 <? 0 then 45%N else 43%N]
                ++ decimalString (Z.abs (n - 1)) in
    if k =? 1 then ds ++ expo
    else take 1 ds ++ [DOT] ++ drop 1 ds ++ expo.

(** Number::toString, radix 10. *)
Definition numberToString (x : number) : jsstring :=
  match x with
  | S754_nan => js "NaN"
  | S754_zero _ => js "0"
  | S754_infinity s => (if s then [45%N] else []) ++ js "Infinity"
  | S754_finite s m e =>
      let '(ds, n) := shortestDigits m e in
      (if s then [45%N] else []) ++ formatDigits ds n
  end.

Definition hexDigit (d : N) : N := (if d <? 10 then 48 + d else 87 + d)%N.

(** [\uXXXX] with lower-case hexadecimal digits. *)
Definition unicodeEscape (c : N) : jsstring :=
  [92; 117; hexDigit (c / 4096 mod 16); hexDigit (c / 256 mod 16);
   hexDigit (c / 16 mod 16); hexDigit (c mod 16)]%N.

Definition isLeadingSurrogate (c : N) : bool := ((55296 <=? c) && (c <=? 56319))%N.
Definition isTrailingSurrogate (c : N) : bool := ((56320 <=? c) && (c <=? 57343))%N.

(** The escape of one code point that is not a surrogate pair. *)
Definition escapeUnit (c : N) : jsstring :=
  (if c =? 8 then [92; 98]
   else if c =? 9 then [92; 116]
   else if c =? 10 then [92; 110]
   else if c =? 12 then [92; 102]
   else if c =? 13 then [92; 114]
   else if c =? 34 then [92; 34]
   else if c =? 92 then [92; 92]
   else if (c <? 32) || isLeadingSurrogate c || isTrailingSurrogate c
        then unicodeEscape c
   else [c])%N.

Fixpoint quoteBody (s : jsstring) : jsstring :=
  match s with
  | [] => []
  | c :: rest =>
      match rest with
      | d :: rest' =>
          if isLeadingSurrogate c && isTrailingSurrogate d
          then c :: d :: quoteBody rest'
          else escapeUnit c ++ quoteBody rest
      | [] => escapeUnit c
      end
  end.

(** QuoteJSONString *)
Definition quoteJSONString (s : jsstring) : jsstring :=
  [QUOTE] ++ quoteBody s ++ [QUOTE].

(** A number in JSON: non-finite values are written [null]. *)
Definition jsonNumber (x : number) : jsstring :=
  if isFinite x then numberToString x else js "null".

Definition jsonKey (k : string) : jsstring := [QUOTE] ++ js k ++ [QUOTE; 58%N].

(** A record serialises with its properties in creation order. *)
Definition jsonPueblo (p : Pueblo) : jsstring :=
  [123%N]
  ++ jsonKey "nombre" ++ quoteJSONString (nombre p) ++ [COMMA]
  ++ jsonKey "latitud" ++ jsonNumber (latitud p) ++ [COMMA]
  ++ jsonKey "longitud" ++ jsonNumber (longitud p) ++ [COMMA]
  ++ jsonKey "seguridad" ++ quoteJSONString (seguridad p) ++ [COMMA]
  ++ jsonKey "securityTips" ++ quoteJSONString (securityTips p) ++ [COMMA]
  ++ jsonKey "distancia" ++ quoteJSONString (distancia p) ++ [COMMA]
  ++ jsonKey "ruta" ++ quoteJSONString (ruta p) ++ [COMMA]
  ++ jsonKey "linkTurismo" ++ quoteJSONString (linkTurismo p)
  ++ [125%N].

Fixpoint joinWith (sep : jsstring) (parts : list jsstring) : jsstring :=
  match parts with
  | [] => []
  | [p] => p
  | p :: rest => p ++ sep ++ joinWith sep rest
  end.

(** [JSON.stringify(newData)] *)
Definition JSON_stringify (newData : list Pueblo) : jsstring :=
  [91%N] ++ joinWith [COMMA] (List.map jsonPueblo newData) ++ [93%N].

(** ** The fingerprint *)

(** ToInt32 on an integer. *)
Definition toInt32 (z : Z) : Z := (z + 2 ^ 31) mod 2 ^ 32 - 2 ^ 31.

(** [a << 5] *)
Definition shl5 (a : Z) : Z := toInt32 (Z.shiftl (toInt32 a) 5).

(** The reducer [(a, b) => { a = ((a << 5) - a) + b.charCodeAt(0); return a & a; }].
    The subtraction and the addition are on doubles, and exact there: their
    operands are 32-bit integers and a code unit. *)
Definition hashStep (a : Z) (b : N) : Z :=
  let a := (shl5 a - a) + Z.of_N b in
  Z.land (toInt32 a) (toInt32 a).

(** [JSON.stringify(newData).split('').reduce(..., 0)] *)
Definition fingerprint (newData : list Pueblo) : Z :=
  fold_left hashStep (JSON_stringify newData) 0.

(** ** The snapshot: a plain object in the heap *)

(** An object created by [{}] and used as a map from names to records: its
    own properties, and its prototype when that is no longer
    [Object.prototype] ([None]). *)
Record JSObject := mkObject {
  own : gmap jsstring Pueblo;
  proto : option Pueblo
}.

Definition emptyObject : JSObject := {| own := ∅; proto := None |}.

Definition protoKey : jsstring := js "__proto__".

(** [obj[key] = value] for a record [value].  Every key creates or overwrites
    an own property, except [__proto__], which reaches the setter inherited
    from [Object.prototype] and replaces the prototype. *)
Definition setProperty (key : jsstring) (value : Pueblo) (obj : JSObject)
  : JSObject :=
  if bool_decide (key = protoKey)
  then {| own := own obj; proto := Some value |}
  else {| own := <[key := value]> (own obj); proto := proto obj |}.

(** [Object.keys(obj)], as a set. *)
Definition ObjectKeys (obj : JSObject) : gset jsstring := dom (own obj).

Abbreviation loc := positive.

(** ** The sync controller *)

(** The two arguments of a call of [updateStatus]. *)
Definition Status : Type := jsstring * jsstring.

Definition statusActualizando : Status :=
  ([55357%N; 56580%N], js "Actualizando datos...").
Definition statusActualizados : Status :=
  ([55357%N; 57314%N], js "Datos actualizados").
Definition statusSinCambios : Status :=
  ([55357%N; 57314%N], js "Sin cambios").
Definition statusError : Status :=
  ([10060%N], js "Error de conexi" ++ [243%N] ++ js "n").

(** The global [turismoDatos], the two fields of the manager that the cycle
    reads and writes, and what the cycle does to its collaborators: the calls
    of [updateStatus], of [updatePueblosMagicosMarkers] and of [fetch], and
    the activations of [updateData] suspended at their [await], oldest
    first, each with its [manual] argument. *)
Record State := mkState {
  isUpdating : bool;
  lastDataHash : option Z;
  turismoDatos : loc;
  heap : gmap loc JSObject;
  statusLog : list Status;
  markerUpdates : nat;
  fetches : nat;
  awaiting : list bool
}.

(** The state the constructor leaves: [turismoDatos = {}],
    [lastDataHash = null], [isUpdating = false]. *)
Definition initialState : State :=
  {| isUpdating := false; lastDataHash := None;
     turismoDatos := 1%positive; heap := {[ 1%positive := emptyObject ]};
     statusLog := []; markerUpdates := 0; fetches := 0; awaiting := [] |}.

(** How the request of one cycle settles: [fetch] rejects, or it resolves
    with a response whose [text()] resolves ([Some]) or rejects ([None]). *)
Inductive FetchOutcome :=
  | NetworkError
  | Response (ok : bool) (status : Z) (body : option jsstring).

Inductive Thrown :=
  | FetchRejected
  | HttpError (status : Z)
  | TextRejected.

(** [fetchDataFromGoogleSheets], from the point where the request settles:
    the error it rethrows, or the parsed dataset. *)
Definition fetchDataFromGoogleSheets (r : FetchOutcome)
  : Thrown + list Pueblo :=
  match r with
  | NetworkError => inl FetchRejected
  | Response ok status body =>
      if negb ok then inl (HttpError status)
      else match body with
           | None => inl TextRejected
           | Some csvText => inr (parseCSVData csvText)
           end
  end.

Definition updateStatus (s : Status) (st : State) : State :=
  {| isUpdating := isUpdating st; lastDataHash := lastDataHash st;
     turismoDatos := turismoDatos st; heap := heap st;
     statusLog := statusLog st ++ [s]; markerUpdates := markerUpdates st;
     fetches := fetches st; awaiting := awaiting st |}.

(** [turismoDatos = {}]: a fresh object, the previous one stays in the heap
    for whoever still holds it. *)
Definition resetTurismoDatos (st : State) : State :=
  let l := fresh (dom (heap st)) in
  {| isUpdating := isUpdating st; lastDataHash := lastDataHash st;
     turismoDatos := l; heap := <[l := emptyObject]> (heap st);
     statusLog := statusLog st; markerUpdates := markerUpdates st;
     fetches := fetches st; awaiting := awaiting st |}.

(** [turismoDatos[pueblo.nombre] = pueblo] *)
Definition storePueblo (st : State) (pueblo : Pueblo) : State :=
  {| isUpdating := isUpdating st; lastDataHash := lastDataHash st;
     turismoDatos := turismoDatos st;
     heap := alter (setProperty (nombre pueblo) pueblo) (turismoDatos st) (heap st);
     statusLog := statusLog st; markerUpdates := markerUpdates st;
     fetches := fetches st; awaiting := awaiting st |}.

Definition setLastDataHash (h : Z) (st : State) : State :=
  {| isUpdating := isUpdating st; lastDataHash := Some h;
     turismoDatos := turismoDatos st; heap := heap st;
     statusLog := statusLog st; markerUpdates := markerUpdates st;
     fetches := fetches st; awaiting := awaiting st |}.

(** The call of [updatePueblosMagicosMarkers], a function declared in the
    same script (so the [typeof] test holds).  It belongs to the
    presentation side: it reads the snapshot, redraws the markers and
    returns; the core only sees that it was called. *)
Definition updatePueblosMagicosMarkers (st : State) : State :=
  {| isUpdating := isUpdating st; lastDataHash := lastDataHash st;
     turismoDatos := turismoDatos st; heap := heap st;
     statusLog := statusLog st; markerUpdates := S (markerUpdates st);
     fetches := fetches st; awaiting := awaiting st |}.

Definition setIsUpdating (b : bool) (st : State) : State :=
  {| isUpdating := b; lastDataHash := lastDataHash st;
     turismoDatos := turismoDatos st; heap := heap st;
     statusLog := statusLog st; markerUpdates := markerUpdates st;
     fetches := fetches st; awaiting := awaiting st |}.

(** The request leaves and the activation suspends at its [await]. *)
Definition suspend (manual : bool) (st : State) : State :=
  {| isUpdating := isUpdating st; lastDataHash := lastDataHash st;
     turismoDatos := turismoDatos st; heap := heap st;
     statusLog := statusLog st; markerUpdates := markerUpdates st;
     fetches := S (fetches st); awaiting := awaiting st ++ [manual] |}.

(** [updateData(manual)] up to its [await]: the gate, the flag, the status
    of a manual run, the request. *)
Definition updateData_enter (manual : bool) (st : State) : State :=
  if isUpdating st then st
  else
    let st := setIsUpdating true st in
    let st := if manual then updateStatus statusActualizando st else st in
    suspend manual st.

(** [updateData(manual)] from the point where its request has settled. *)
Definition updateData_resume (manual : bool) (r : FetchOutcome) (st : State)
  : State :=
  let st :=
    match fetchDataFromGoogleSheets r with
    | inr newData =>
        let newHash := fingerprint newData in
        if negb (bool_decide (Some newHash = lastDataHash st)) || manual then
          let st := resetTurismoDatos st in
          let st := fold_left storePueblo newData st in
          let st := setLastDataHash newHash st in
          let st := updatePueblosMagicosMarkers st in
          updateStatus statusActualizados st
        else updateStatus statusSinCambios st
    | inl error => updateStatus statusError st
    end in
  setIsUpdating false st.

(** What the page reacts to: the interval timer fires, the manual-update
    button is clicked, the request of the suspended activation settles. *)
Inductive Event :=
  | Tick
  | Click
  | Settle (r : FetchOutcome).

Definition popAwaiting (st : State) : State :=
  {| isUpdating := isUpdating st; lastDataHash := lastDataHash st;
     turismoDatos := turismoDatos st; heap := heap st;
     statusLog := statusLog st; markerUpdates := markerUpdates st;
     fetches := fetches st; awaiting := tail (awaiting st) |}.

Definition handle (st : State) (ev : Event) : State :=
  match ev with
  | Tick => updateData_enter false st
  | Click => updateData_enter true st
  | Settle r =>
      match awaiting st with
      | [] => st
      | manual :: _ => updateData_resume manual r (popAwaiting st)
      end
  end.

Definition run (evs : list Event) (st : State) : State :=
  fold_left handle evs st.

(** One whole cycle: [updateData(manual)] called and run until its promise
    settles, the request settling with [r]. *)
Definition updateData (manual : bool) (r : FetchOutcome) (st : State) : State :=
  run [if manual then Click else Tick; Settle r] st.

(** The object the global [turismoDatos] refers to. *)
Definition snapshot (st : State) : option JSObject :=
  heap st !! turismoDatos st.

(** ** Vocabulary of the properties *)

(** A signed 32-bit integer. *)
Definition isInt32 (z : Z) : Prop := - 2 ^ 31 <= z <= 2 ^ 31 - 1.

(** The mapping the [forEach] builds: the assignments
    [obj[pueblo.nombre] = pueblo] in the order of the dataset. *)
Definition storeAll (newData : list Pueblo) (obj : JSObject) : JSObject :=
  fold_left (fun o pueblo => setProperty (nombre pueblo) pueblo o) newData obj.

(** The event behind a call [updateData(manual)]: the button when manual,
    the timer otherwise. *)
Definition call (manual : bool) : Event := if manual then Click else Tick.

(** No cycle is in flight. *)
Definition idle (st : State) : Prop :=
  isUpdating st = false /\ awaiting st = [].

(** The invariant of the gate: the flag is set exactly while one activation
    is suspended, and there is never a second one. *)
Definition gated (st : State) : Prop :=
  (isUpdating st = false /\ awaiting st = [])
  \/ (isUpdating st = true /\ exists manual, awaiting st = [manual]).

(** The fetch fails: the request is rejected, or the response has a
    non-success status. *)
Definition fetchFails (r : FetchOutcome) : Prop :=
  match r with
  | NetworkError => True
  | Response ok _ _ => ok = false
  end.

(** Some code unit of the string is not white space. *)
Definition hasNonWhiteSpace (s : jsstring) : bool :=
  existsb (fun c => negb (isWhiteSpace c)) s.

(** Standard CSV quoting, as the specification words it: each embedded quote
    doubled, *)
Definition escapeQuotes (value : jsstring) : jsstring :=
  flat_map (fun c => if (c =? QUOTE)%N then [QUOTE; QUOTE] else [c]) value.

(** and the value wrapped in quote characters. *)
Definition csvQuote (value : jsstring) : jsstring :=
  [QUOTE] ++ escapeQuotes value ++ [QUOTE].

(** A record of quoted fields separated by commas, and a table of such
    records separated by line feeds. *)
Definition csvRecord (fields : Row) : jsstring :=
  joinWith [COMMA] (List.map csvQuote fields).

Definition csvTable (table : list Row) : jsstring :=
  joinWith [LF] (List.map csvRecord table).

Arguments csvQuote : simpl never.
Arguments csvRecord : simpl never.
Arguments csvTable : simpl never.

(** What the scanner does to its state: a whole value read in quoted mode,
    one character appended, the mode toggled. *)
Definition appendField (value : jsstring) (st : Scanner) : Scanner :=
  {| rows := rows st; currentRow := currentRow st;
     currentField := currentField st ++ value; inQuotes := false |}.

Definition appendChar (c : N) (st : Scanner) : Scanner :=
  {| rows := rows st; currentRow := currentRow st;
     currentField := currentField st ++ [c]; inQuotes := inQuotes st |}.

Definition toggleQuotes (st : Scanner) : Scanner :=
  {| rows := rows st; currentRow := currentRow st;
     currentField := currentField st; inQuotes := negb (inQuotes st) |}.

(** A row with a field that is not blank. *)
Definition hasContentRow (row : Row) : Prop :=
  existsb hasNonWhiteSpace row = true.




(** The coordinates of a row as [processRow] parses them. *)
Definition latitudOf (row : Row) : number :=
  parseFloat (replaceFirst COMMA DOT (cell latitudIndex row)).

Definition longitudOf (row : Row) : number :=
  parseFloat (replaceFirst COMMA DOT (cell longitudIndex row)).

(** The last record of the dataset bearing a name. *)
Definition lastNamed (name : jsstring) (newData : list Pueblo) : option Pueblo :=
  last (filter (fun pueblo => nombre pueblo = name) newData).

(** A town called [__proto__], as the normaliser builds it. *)
Definition puebloProto : Pueblo :=
  {| nombre := protoKey;
     latitud := decimalValue false 203 (-1);
     longitud := decimalValue true 10325 (-2);
     seguridad := informacionNoDisponible;
     securityTips := js "Information not available";
     distancia := js "N/A";
     ruta := js "#";
     linkTurismo := js "#" |}.

(** ** The page around the core *)

(** [loadInfografia] writes three things: the image's [src], its [display]
    and [onerror] handler, and the placeholder's [display]. *)
Record InfografiaView := mkInfografiaView {
  imgSrc : jsstring;
  imgDisplay : jsstring;
  imgOnerror : bool;
  placeholderDisplay : jsstring
}.

(** The towns that have an infographic, as listed in [loadInfografia]. *)
Definition pueblosConInfografias : list jsstring :=
  [ js "Ajijic"; js "Cocula"; js "Lagos de Moreno"; js "Mascota";
    js "Mazamitla"; js "San Sebasti" ++ [225%N] ++ js "n del Oeste";
    js "Sayula"; js "Talpa de Allende"; js "Tapalpa";
    js "Temacapul" ++ [237%N] ++ js "n"; js "Tequila"; js "Tlaquepaque" ].

(** [Infografia_Seguridad_${nombrePueblo}_${sufijo}.png] *)
Definition nombreArchivo (nombrePueblo idioma : jsstring) : jsstring :=
  let sufijo := if bool_decide (idioma = js "en") then js "English"
                else js "Final" in
  js "Infografia_Seguridad_" ++ nombrePueblo ++ js "_" ++ sufijo ++ js ".png".

Definition loadInfografia (nombrePueblo idioma : jsstring)
    (view : InfografiaView) : InfografiaView :=
  if bool_decide (nombrePueblo ∈ pueblosConInfografias) then
    {| imgSrc := nombreArchivo nombrePueblo idioma;
       imgDisplay := js "block";
       imgOnerror := true;
       placeholderDisplay := js "none" |}
  else
    {| imgSrc := imgSrc view;
       imgDisplay := js "none";
       imgOnerror := imgOnerror view;
       placeholderDisplay := js "flex" |}.

(** The image fails to load: the handler, if one is installed, runs. *)
Definition infografiaError (view : InfografiaView) : InfografiaView :=
  if imgOnerror view then
    {| imgSrc := imgSrc view;
       imgDisplay := js "none";
       imgOnerror := true;
       placeholderDisplay := js "flex" |}
  else view.

(** [STYLES.default], [STYLES.hover], [STYLES.active].  The three set the
    same five path options, so the look of a layer is the style last set
    on it. *)
Inductive Style :=
  | stylesDefault
  | stylesHover
  | stylesActive.

#[global] Instance Style_eq_dec : EqDecision Style.
Proof. solve_decision. Defined.

(** The municipality layers (numbered), the style last set on each, the
    global [currentActiveFeature] and the [display] of the modal. *)
Record MapView := mkMapView {
  layerStyles : gmap nat Style;
  currentActiveFeature : option nat;
  modalDisplay : jsstring
}.

(** Every layer is created with [STYLES.default]; nothing is selected. *)
Definition initialMapView : MapView :=
  {| layerStyles := ∅; currentActiveFeature := None; modalDisplay := [] |}.

Definition styleOf (view : MapView) (layer : nat) : Style :=
  default stylesDefault (layerStyles view !! layer).

(** [layer.setStyle(style)] *)
Definition setStyle (layer : nat) (style : Style) (view : MapView) : MapView :=
  {| layerStyles := <[layer := style]> (layerStyles view);
     currentActiveFeature := currentActiveFeature view;
     modalDisplay := modalDisplay view |}.

(** What [showPuebloInfo] does to the view: the modal is displayed. *)
Definition showModal (view : MapView) : MapView :=
  {| layerStyles := layerStyles view;
     currentActiveFeature := currentActiveFeature view;
     modalDisplay := js "block" |}.

(** The three handlers [onEachFeature] installs on a layer. *)
Definition onMouseover (layer : nat) (view : MapView) : MapView :=
  setStyle layer stylesHover view.

Definition onMouseout (layer : nat) (view : MapView) : MapView :=
  if bool_decide (currentActiveFeature view = Some layer) then view
  else setStyle layer stylesDefault view.

Definition onClick (layer : nat) (view : MapView) : MapView :=
  let view :=
    match currentActiveFeature view with
    | Some active =>
        if bool_decide (active = layer) then view
        else setStyle active stylesDefault view
    | None => view
    end in
  let view := {| layerStyles := layerStyles view;
                 currentActiveFeature := Some layer;
                 modalDisplay := modalDisplay view |} in
  showModal (setStyle layer stylesActive view).

Definition closeModal (view : MapView) : MapView :=
  let view := {| layerStyles := layerStyles view;
                 currentActiveFeature := currentActiveFeature view;
                 modalDisplay := js "none" |} in
  match currentActiveFeature view with
  | Some active =>
      {| layerStyles := <[active := stylesDefault]> (layerStyles view);
         currentActiveFeature := None;
         modalDisplay := modalDisplay view |}
  | None => view
  end.

(** What the user does on the map: the pointer enters or leaves a
    municipality, a municipality or a marker is clicked, the modal is closed
    (button, backdrop or Escape). *)
Inductive MapEvent :=
  | Mouseover (layer : nat)
  | Mouseout (layer : nat)
  | ClickLayer (layer : nat)
  | ClickMarker
  | CloseModal.

Definition handleMap (view : MapView) (ev : MapEvent) : MapView :=
  match ev with
  | Mouseover layer => onMouseover layer view
  | Mouseout layer => onMouseout layer view
  | ClickLayer layer => onClick layer view
  | ClickMarker => showModal view
  | CloseModal => closeModal view
  end.

Definition runMap (evs : list MapEvent) (view : MapView) : MapView :=
  fold_left handleMap evs view.

(** The first load of the earlier revision (lines 857-879): the activation
    resumes with the outcome of its request and writes the towns into the
    object [turismoDatos] already refers to.  [loadGeoJSON], which both
    branches end with, draws the municipalities and is left to the map. *)
Module MejoradaPage.
(** [parseCSVData] of that revision (lines 698-776): the same row loop over
    the rows of its own scanner. *)
Definition parseCSVData (csvText : jsstring) : list Pueblo :=
  let rows := Mejorada.parseCSVText csvText in
  if (length rows <? 2)%nat then [] else omap processRow (drop 1 rows).

Definition fetchDataFromGoogleSheets (r : FetchOutcome)
  : Thrown + list Pueblo :=
  match r with
  | NetworkError => inl FetchRejected
  | Response ok status body =>
      if negb ok then inl (HttpError status)
      else match body with
           | None => inl TextRejected
           | Some csvText => inr (parseCSVData csvText)
           end
  end.

Definition loadTurismoData (r : FetchOutcome) (st : State) : State :=
  match fetchDataFromGoogleSheets r with
  | inr data => updatePueblosMagicosMarkers (fold_left storePueblo data st)
  | inl error => st
  end.
End MejoradaPage.

(** ** Vocabulary of the further properties *)

(** The characters a CSV writer has to quote a field for. *)
Definition isSpecial (c : N) : bool :=
  ((c =? QUOTE) || (c =? COMMA) || (c =? CR) || (c =? LF))%N.

Definition needsQuoting (value : jsstring) : bool := existsb isSpecial value.

(** A writer that quotes a field only when it has to, as spreadsheet exports
    do, with any of the three line breaks between records. *)
Definition writeField (value : jsstring) : jsstring :=
  if needsQuoting value then csvQuote value else value.

Definition writeRecord (fields : Row) : jsstring :=
  joinWith [COMMA] (List.map writeField fields).

Definition writeTable (lineBreak : jsstring) (table : list Row) : jsstring :=
  joinWith lineBreak (List.map writeRecord table).

Arguments writeField : simpl never.
Arguments writeRecord : simpl never.
Arguments writeTable : simpl never.

Definition isLineBreak (lineBreak : jsstring) : Prop :=
  lineBreak = [LF] \/ lineBreak = [CR] \/ lineBreak = [CR; LF].

(** A field without quote, comma or line break, and a scanner that, outside
    quoted mode, holds only such fields. *)
Definition plainField (field : jsstring) : Prop := needsQuoting field = false.

Definition plainScanner (st : Scanner) : Prop :=
  inQuotes st = false /\ plainField (currentField st)
  /\ Forall plainField (currentRow st)
  /\ Forall (Forall plainField) (rows st).

(** The rows the final revision keeps. *)
Definition keepsRow (row : Row) : Prop := existsb nonBlank row = true.

#[global] Instance keepsRow_dec row : Decision (keepsRow row).
Proof. unfold keepsRow. apply _. Defined.

(** The base-31 polynomial of a string over the integers, from [a]. *)
Definition polyHash (s : jsstring) (a : Z) : Z :=
  fold_left (fun acc c => 31 * acc + Z.of_N c) s a.

(** A code unit [JSON.stringify] copies as it is. *)
Definition jsonPlain (c : N) : Prop :=
  escapeUnit c = [c] /\ isLeadingSurrogate c = false
  /\ isTrailingSurrogate c = false.

(** The record [pueblo] under another name. *)
Definition renamed (name : jsstring) (pueblo : Pueblo) : Pueblo :=
  {| nombre := name; latitud := latitud pueblo; longitud := longitud pueblo;
     seguridad := seguridad pueblo; securityTips := securityTips pueblo;
     distancia := distancia pueblo; ruta := ruta pueblo;
     linkTurismo := linkTurismo pueblo |}.

(** The text fields of a record. *)
Definition textFields (pueblo : Pueblo) : list jsstring :=
  [nombre pueblo; seguridad pueblo; securityTips pueblo; distancia pueblo;
   ruta pueblo; linkTurismo pueblo].

(** No white space at either end. *)
Definition trimmed (s : jsstring) : Prop :=
  (forall c, head s = Some c -> isWhiteSpace c = false)
  /\ (forall c, last s = Some c -> isWhiteSpace c = false).

(** Whether the fetch gives the cycle a dataset. *)
Definition fetchThrows (r : FetchOutcome) : Prop :=
  match r with
  | NetworkError => True
  | Response ok _ body => ok = false \/ body = None
  end.

(** What happens to the infographic: [showPuebloInfo] asks for the one of a
    town, or the image fails to load. *)
Inductive InfografiaEvent :=
  | ShowPueblo (nombrePueblo idioma : jsstring)
  | ImgError.

Definition handleInfografia (view : InfografiaView) (ev : InfografiaEvent)
  : InfografiaView :=
  match ev with
  | ShowPueblo nombrePueblo idioma => loadInfografia nombrePueblo idioma view
  | ImgError => infografiaError view
  end.

Definition runInfografia (evs : list InfografiaEvent) (view : InfografiaView)
  : InfografiaView :=
  fold_left handleInfografia evs view.

(** Exactly one of the image and the placeholder is displayed. *)
Definition oneDisplayed (view : InfografiaView) : Prop :=
  (imgDisplay view = js "block" /\ placeholderDisplay view = js "none")
  \/ (imgDisplay view = js "none" /\ placeholderDisplay view = js "flex").

(** * Properties *)

(** ** The model on known values *)

Example parseFloat_values :
  parseFloat (js "20.3") = S754_finite false 5713942027226317 (-48)
  /\ parseFloat (js "-103.25") = S754_finite true 7265572836343808 (-46)
  /\ parseFloat (js "0.1") = S754_finite false 7205759403792794 (-56)
  /\ parseFloat (js "  .5e1x") = S754_finite false 5629499534213120 (-50)
  /\ parseFloat (js "1.5.3") = S754_finite false 6755399441055744 (-52)
  /\ parseFloat (js "1e+") = S754_finite false 4503599627370496 (-52)
  /\ parseFloat (js "9007199254740993") = S754_finite false 4503599627370496 1
  /\ parseFloat (js "5e-324") = S754_finite false 1 (-1074)
  /\ parseFloat (js "2e-324") = S754_zero false
  /\ parseFloat (js "-0") = S754_zero true
  /\ parseFloat (js "1.7976931348623159e308") = S754_infinity false
  /\ parseFloat (js "-Infinityx") = S754_infinity true
  /\ parseFloat (js "infinity") = S754_nan
  /\ parseFloat (js ".") = S754_nan
  /\ parseFloat (js "abc") = S754_nan.
Proof. repeat split; vm_compute; reflexivity. Qed.

Example numberToString_values :
  List.map (fun s => numberToString (parseFloat s))
    [js "20.3"; js "-103.25"; js "1e21"; js "1e23";
     js "123456789012345680000"; js "0.000001"; js "0.0000001"; js "1.5e-7";
     js "5e-324"; js "1.7976931348623157e308"; js "0.30000000000000004";
     js "9007199254740993"; js "100"; js "-0"]
  =
    [js "20.3"; js "-103.25"; js "1e+21"; js "1e+23";
     js "123456789012345680000"; js "0.000001"; js "1e-7"; js "1.5e-7";
     js "5e-324"; js "1.7976931348623157e+308"; js "0.30000000000000004";
     js "9007199254740992"; js "100"; js "0"].
Proof. vm_compute. reflexivity. Qed.

Example parseCSVText_values :
  parseCSVText (js "a,b" ++ [CR; LF] ++ js "c,," ++ [LF; LF] ++ js " ," ++ [CR]
                ++ js "d")
  = [[js "a"; js "b"]; [js "c"; []; []]; [js "d"]]
  /\ parseCSVText ([QUOTE] ++ js "x,y" ++ [LF; QUOTE; QUOTE] ++ js "z"
                   ++ [QUOTE] ++ js "w,v")
     = [[js "x,y" ++ [LF; QUOTE] ++ js "zw"; js "v"]].
Proof. split; vm_compute; reflexivity. Qed.

Example fingerprint_value :
  JSON_stringify
    (parseCSVData (js "Id,Name,Lat,Lon" ++ [LF] ++ js "1,Ajijic,20.3,-103.25"))
  = [91; 123]%N ++ jsonKey "nombre" ++ [QUOTE] ++ js "Ajijic" ++ [QUOTE; COMMA]
    ++ jsonKey "latitud" ++ js "20.3," ++ jsonKey "longitud" ++ js "-103.25,"
    ++ jsonKey "seguridad" ++ [QUOTE] ++ informacionNoDisponible ++ [QUOTE; COMMA]
    ++ jsonKey "securityTips" ++ [QUOTE] ++ js "Information not available"
    ++ [QUOTE; COMMA]
    ++ jsonKey "distancia" ++ [QUOTE] ++ js "N/A" ++ [QUOTE; COMMA]
    ++ jsonKey "ruta" ++ [QUOTE] ++ js "#" ++ [QUOTE; COMMA]
    ++ jsonKey "linkTurismo" ++ [QUOTE] ++ js "#" ++ [QUOTE; 125; 93]%N
  /\ fingerprint
       (parseCSVData (js "Id,Name,Lat,Lon" ++ [LF] ++ js "1,Ajijic,20.3,-103.25"))
     = 315855037.
Proof. split; vm_compute; reflexivity. Qed.

(** ** The fingerprint is a 32-bit integer *)

Lemma toInt32_isInt32 z : isInt32 (toInt32 z).
Proof.
  unfold isInt32, toInt32.
  pose proof (Z.mod_pos_bound (z + 2 ^ 31) (2 ^ 32) ltac:(lia)). lia.
Qed.

Lemma toInt32_id z : isInt32 z -> toInt32 z = z.
Proof.
  unfold isInt32, toInt32. intros Hz.
  rewrite Z.mod_small by lia. lia.
Qed.

Lemma hashStep_toInt32 a b :
  hashStep a b = toInt32 (shl5 a - a + Z.of_N b).
Proof. unfold hashStep. apply Z.land_diag. Qed.

Lemma hashStep_isInt32 a b : isInt32 (hashStep a b).
Proof. rewrite hashStep_toInt32. apply toInt32_isInt32. Qed.

Lemma fold_hashStep_isInt32 s a : isInt32 a -> isInt32 (fold_left hashStep s a).
Proof.
  revert a. induction s as [|b s IH]; intros a Ha; simpl; [exact Ha|].
  apply IH, hashStep_isInt32.
Qed.

(** ** Field-by-field view of the cycle *)

Lemma fold_storePueblo_frame newData st :
  let st' := fold_left storePueblo newData st in
  isUpdating st' = isUpdating st /\ lastDataHash st' = lastDataHash st
  /\ turismoDatos st' = turismoDatos st /\ statusLog st' = statusLog st
  /\ markerUpdates st' = markerUpdates st /\ fetches st' = fetches st
  /\ awaiting st' = awaiting st.
Proof.
  revert st. induction newData as [|p ps IH]; intros st; simpl; [tauto|].
  destruct (IH (storePueblo st p)) as (?&?&?&?&?&?&?). simpl in *. tauto.
Qed.

Lemma fold_storePueblo_heap newData st :
  heap (fold_left storePueblo newData st)
  = alter (storeAll newData) (turismoDatos st) (heap st).
Proof.
  revert st. induction newData as [|p ps IH]; intros st; simpl.
  - symmetry. apply alter_id. reflexivity.
  - rewrite IH. simpl. unfold storeAll. simpl.
    apply map_eq. intros l.
    destruct (decide (turismoDatos st = l)) as [->|Hne].
    + rewrite !lookup_alter_eq. destruct (heap st !! l); reflexivity.
    + rewrite !lookup_alter_ne by exact Hne. reflexivity.
Qed.

(** The accepting branch, seen from outside. *)
Lemma accept_heap newData st :
  let l := fresh (dom (heap st)) in
  heap (fold_left storePueblo newData (resetTurismoDatos st))
  = <[l := storeAll newData emptyObject]> (heap st).
Proof.
  simpl. rewrite fold_storePueblo_heap. simpl.
  apply alter_insert_eq.
Qed.

Lemma handle_call manual st : handle st (call manual) = updateData_enter manual st.
Proof. destruct manual; reflexivity. Qed.

Lemma updateData_idle manual r st :
  idle st ->
  updateData manual r st
  = updateData_resume manual r
      (popAwaiting (updateData_enter manual st)).
Proof.
  intros [Hu Ha]. unfold updateData, run. simpl fold_left.
  change (if manual then Click else Tick) with (call manual).
  rewrite handle_call. unfold handle.
  unfold updateData_enter at 1 2. rewrite Hu.
  destruct manual; simpl; rewrite Ha; reflexivity.
Qed.

Lemma resume_frame manual r st :
  let st' := updateData_resume manual r st in
  isUpdating st' = false /\ awaiting st' = awaiting st
  /\ fetches st' = fetches st.
Proof.
  unfold updateData_resume.
  destruct (fetchDataFromGoogleSheets r) as [err|newData]; simpl; [tauto|].
  destruct (negb _ || manual); simpl; [|tauto].
  destruct (fold_storePueblo_frame newData (resetTurismoDatos st))
    as (?&?&?&?&?&?&?).
  simpl in *. tauto.
Qed.

Lemma handle_gated st ev : gated st -> gated (handle st ev).
Proof.
  intros [[Hu Ha]|[Hu [m Ha]]].
  - destruct ev as [| |r]; simpl.
    + unfold updateData_enter. rewrite Hu. right. simpl. rewrite Ha. eauto.
    + unfold updateData_enter. rewrite Hu. right. simpl. rewrite Ha. eauto.
    + rewrite Ha. left. tauto.
  - destruct ev as [| |r]; simpl.
    + unfold updateData_enter. rewrite Hu. right. eauto.
    + unfold updateData_enter. rewrite Hu. right. eauto.
    + rewrite Ha. left.
      destruct (resume_frame m r (popAwaiting st)) as (?&Haw&?).
      split; [assumption|]. rewrite Haw. simpl. rewrite Ha. reflexivity.
Qed.

Lemma run_gated evs st : gated st -> gated (run evs st).
Proof.
  revert st. induction evs as [|ev evs IH]; intros st Hst; simpl; [exact Hst|].
  apply IH, handle_gated, Hst.
Qed.

Lemma initialState_gated : gated initialState.
Proof. left. split; reflexivity. Qed.

(** ** The sync cycle *)

(** C10: every step of the rolling hash, and therefore the fingerprint of
    every dataset, is a signed 32-bit integer; so is every fingerprint the
    controller ever retains, and the comparison [newHash !== lastDataHash]
    is decided by equality of integers. *)
Theorem fingerprint_is_int32 :
  (forall a b, isInt32 (hashStep a b))
  /\ (forall newData, isInt32 (fingerprint newData))
  /\ (forall evs h, lastDataHash (run evs initialState) = Some h -> isInt32 h).
Proof.
  split; [exact hashStep_isInt32|]. split.
  - intros newData. apply fold_hashStep_isInt32. unfold isInt32. lia.
  - intros evs.
    assert (Hinv : forall st,
      (forall h, lastDataHash st = Some h -> isInt32 h) ->
      forall h, lastDataHash (run evs st) = Some h -> isInt32 h).
    { induction evs as [|ev evs IH]; intros st Hst; simpl; [exact Hst|].
      apply IH. intros h.
      assert (Henter : forall m, lastDataHash (updateData_enter m st) = Some h
                                 -> isInt32 h).
      { intros m. unfold updateData_enter.
        destruct (isUpdating st); [apply Hst|]. destruct m; apply Hst. }
      destruct ev as [| |r]; simpl; [apply Henter..|].
      destruct (awaiting st) as [|m rest]; [apply Hst|].
      unfold updateData_resume.
      destruct (fetchDataFromGoogleSheets r) as [err|newData]; simpl;
        [apply Hst|].
      destruct (negb _ || m); simpl; [|apply Hst].
      intros [= <-]. apply fold_hashStep_isInt32. unfold isInt32. lia. }
    apply Hinv. intros h [=].
Qed.

Lemma fingerprint_is_int32_witness :
  let csvText := js "Id,Name,Lat,Lon" ++ [LF] ++ js "1,Ajijic,20.3,-103.25" in
  let evs := [Tick; Settle (Response true 200 (Some csvText))] in
  lastDataHash (run evs initialState) = Some 315855037
  /\ isInt32 315855037.
Proof.
  intros csvText evs.
  assert (Hlast : lastDataHash (run evs initialState) = Some 315855037)
    by (vm_compute; reflexivity).
  split; [exact Hlast|].
  destruct fingerprint_is_int32 as (_ & _ & Hretained).
  exact (Hretained evs 315855037 Hlast).
Defined.

(** C4: a call of [updateData] made while [isUpdating] is set, from the
    timer or from the button, returns the state it found: no request leaves,
    nothing is queued, the snapshot and the fingerprint stay; so does any
    sequence of such calls.  And whatever the page receives, at most one
    activation is ever suspended, the flag being set exactly while there is
    one. *)
Theorem updateData_while_updating_is_noop
    (manual : bool) (calls : list bool) (st : State) (evs : list Event) :
  isUpdating st = true ->
  updateData_enter manual st = st
  /\ handle st (call manual) = st
  /\ run (List.map call calls) st = st
  /\ (length (awaiting (run evs initialState)) <= 1)%nat
  /\ (isUpdating (run evs initialState) = true
      <-> length (awaiting (run evs initialState)) = 1%nat).
Proof.
  intros Hu.
  assert (Hnoop : forall m, updateData_enter m st = st).
  { intros m. unfold updateData_enter. rewrite Hu. reflexivity. }
  split; [apply Hnoop|]. split; [rewrite handle_call; apply Hnoop|].
  split.
  { induction calls as [|m calls IH]; [reflexivity|].
    simpl. rewrite handle_call, Hnoop. exact IH. }
  destruct (run_gated evs initialState initialState_gated)
    as [[Hf Ha]|[Ht [m Ha]]]; rewrite Ha; simpl.
  - rewrite Hf. split; [lia|]. split; discriminate.
  - rewrite Ht. split; [lia|]. split; reflexivity.
Qed.

Lemma updateData_while_updating_is_noop_witness :
  let st := run [Tick] initialState in
  isUpdating st = true
  /\ updateData_enter true st = st
  /\ run [Click; Tick; Click] st = st
  /\ fetches (run [Click; Tick; Click] st) = 1%nat.
Proof.
  intros st.
  destruct (updateData_while_updating_is_noop true [true; false; true] st []
              eq_refl) as (Henter & _ & Hcalls & _).
  split; [reflexivity|]. split; [exact Henter|].
  split; [exact Hcalls|].
  change (run [Click; Tick; Click] st)
    with (run (List.map call [true; false; true]) st).
  rewrite Hcalls. reflexivity.
Defined.

(** C3: a cycle whose fetch fails keeps the snapshot reference, the heap
    behind it and the fingerprint, reports the error status and clears the
    flag; the next timer tick then starts a fresh cycle. *)
Theorem updateData_fetch_failure
    (manual : bool) (r : FetchOutcome) (st : State) :
  idle st -> fetchFails r ->
  let st' := updateData manual r st in
  turismoDatos st' = turismoDatos st
  /\ heap st' = heap st
  /\ lastDataHash st' = lastDataHash st
  /\ markerUpdates st' = markerUpdates st
  /\ last (statusLog st') = Some statusError
  /\ isUpdating st' = false
  /\ awaiting st' = []
  /\ isUpdating (handle st' Tick) = true
  /\ fetches (handle st' Tick) = S (fetches st').
Proof.
  intros Hidle Hfail st'. subst st'.
  rewrite (updateData_idle manual r st Hidle).
  destruct Hidle as [Hu Ha].
  assert (Herr : exists err, fetchDataFromGoogleSheets r = inl err).
  { destruct r as [|ok status body]; simpl in *; [eauto|].
    rewrite Hfail. simpl. eauto. }
  destruct Herr as [err Herr].
  unfold updateData_resume. rewrite Herr.
  unfold updateData_enter. rewrite Hu.
  destruct manual; simpl; rewrite Ha; simpl;
    rewrite ?last_snoc; repeat split; reflexivity.
Qed.

Lemma updateData_fetch_failure_witness :
  let csvText := js "Id,Name,Lat,Lon" ++ [LF] ++ js "1,Ajijic,20.3,-103.25" in
  let st := updateData false (Response true 200 (Some csvText)) initialState in
  let st1 := updateData false (Response false 503 None) st in
  let st2 := updateData true NetworkError st1 in
  (snapshot st1 = snapshot st /\ lastDataHash st1 = lastDataHash st
   /\ last (statusLog st1) = Some statusError /\ isUpdating st1 = false)
  /\ (snapshot st2 = snapshot st /\ lastDataHash st2 = lastDataHash st
      /\ last (statusLog st2) = Some statusError /\ isUpdating st2 = false).
Proof.
  intros csvText st st1 st2.
  assert (Hidle : idle st) by (split; vm_compute; reflexivity).
  destruct (updateData_fetch_failure false (Response false 503 None) st
              Hidle eq_refl) as (Ht1 & Hh1 & Hl1 & _ & Hs1 & Hu1 & Ha1 & _).
  fold st1 in Ht1, Hh1, Hl1, Hs1, Hu1, Ha1.
  destruct (updateData_fetch_failure true NetworkError st1
              (conj Hu1 Ha1) I) as (Ht2 & Hh2 & Hl2 & _ & Hs2 & Hu2 & _).
  fold st2 in Ht2, Hh2, Hl2, Hs2, Hu2.
  unfold snapshot. rewrite Ht2, Hh2, Hl2, Ht1, Hh1, Hl1.
  exact (conj (conj eq_refl (conj eq_refl (conj Hs1 Hu1)))
              (conj eq_refl (conj eq_refl (conj Hs2 Hu2)))).
Defined.

(** The state in which the activation resumes differs from the state it
    was called in by the flag, the status of a manual run and the request. *)
Lemma enter_frame manual st :
  isUpdating st = false ->
  let st0 := popAwaiting (updateData_enter manual st) in
  turismoDatos st0 = turismoDatos st /\ heap st0 = heap st
  /\ lastDataHash st0 = lastDataHash st
  /\ markerUpdates st0 = markerUpdates st.
Proof.
  intros Hu. unfold updateData_enter. rewrite Hu.
  destruct manual; simpl; tauto.
Qed.

(** The branch [else] of the comparison. *)
Lemma updateData_unchanged status csvText st :
  idle st ->
  Some (fingerprint (parseCSVData csvText)) = lastDataHash st ->
  let st' := updateData false (Response true status (Some csvText)) st in
  last (statusLog st') = Some statusSinCambios
  /\ turismoDatos st' = turismoDatos st
  /\ heap st' = heap st
  /\ lastDataHash st' = lastDataHash st
  /\ markerUpdates st' = markerUpdates st.
Proof.
  intros Hidle Heq st'. subst st'.
  rewrite (updateData_idle false _ st Hidle).
  destruct (enter_frame false st (proj1 Hidle)) as (Ht0 & Hh0 & Hl0 & Hm0).
  remember (popAwaiting (updateData_enter false st)) as st0 eqn:Est0.
  clear Est0. unfold updateData_resume. simpl fetchDataFromGoogleSheets.
  rewrite Hl0, <- Heq, bool_decide_eq_true_2 by reflexivity. simpl.
  rewrite last_snoc. repeat split; congruence.
Qed.

(** The branch [then] of the comparison. *)
Lemma updateData_accepted manual status csvText st :
  idle st ->
  Some (fingerprint (parseCSVData csvText)) <> lastDataHash st
  \/ manual = true ->
  let newData := parseCSVData csvText in
  let st' := updateData manual (Response true status (Some csvText)) st in
  (turismoDatos st' ∉ dom (heap st))
  /\ snapshot st' = Some (storeAll newData emptyObject)
  /\ (forall l, l ∈ dom (heap st) -> heap st' !! l = heap st !! l)
  /\ lastDataHash st' = Some (fingerprint newData)
  /\ markerUpdates st' = S (markerUpdates st)
  /\ last (statusLog st') = Some statusActualizados.
Proof.
  intros Hidle Hacc newData st'. subst st'.
  rewrite (updateData_idle manual _ st Hidle).
  destruct (enter_frame manual st (proj1 Hidle)) as (Ht0 & Hh0 & Hl0 & Hm0).
  remember (popAwaiting (updateData_enter manual st)) as st0 eqn:Est0.
  clear Est0. unfold updateData_resume. simpl fetchDataFromGoogleSheets.
  unfold newData in *. clear newData.
  set (newData := parseCSVData csvText) in *.
  assert (Hbranch :
    negb (bool_decide (Some (fingerprint newData) = lastDataHash st0))
    || manual = true).
  { destruct Hacc as [Hne| ->]; [|apply orb_true_r].
    rewrite Hl0, bool_decide_eq_false_2 by exact Hne. reflexivity. }
  rewrite Hbranch. simpl.
  destruct (fold_storePueblo_frame newData (resetTurismoDatos st0))
    as (_ & _ & Ht & _ & Hm & _ & _).
  simpl in Ht, Hm. unfold snapshot. simpl.
  rewrite Ht, Hm, Hm0, accept_heap, Hh0, last_snoc.
  pose proof (is_fresh (dom (heap st))) as Hfresh.
  repeat split.
  - exact Hfresh.
  - apply lookup_insert_eq.
  - intros l Hl. apply lookup_insert_ne. intros <-. exact (Hfresh Hl).
Qed.

(** What the assignments [obj[pueblo.nombre] = pueblo], made in the order of
    the dataset, leave in the object: under every name but [__proto__] the
    last record bearing it, or what the object had; no own property
    [__proto__] of their making; and as prototype the last record called
    [__proto__], if there is one. *)
Lemma storeAll_content newData obj :
  (forall name, name <> protoKey ->
     own (storeAll newData obj) !! name
     = match lastNamed name newData with
       | Some pueblo => Some pueblo
       | None => own obj !! name
       end)
  /\ own (storeAll newData obj) !! protoKey = own obj !! protoKey
  /\ proto (storeAll newData obj)
     = match lastNamed protoKey newData with
       | Some pueblo => Some pueblo
       | None => proto obj
       end.
Proof.
  revert obj. induction newData as [|p newData IH]; intros obj.
  - split; [|split]; reflexivity.
  - change (storeAll (p :: newData) obj)
      with (storeAll newData (setProperty (nombre p) p obj)).
    destruct (IH (setProperty (nombre p) p obj)) as (Hown & Hkey & Hproto).
    clear IH. unfold lastNamed in *. unfold setProperty in *.
    destruct (bool_decide_reflect (nombre p = protoKey)) as [Hp|Hp];
      simpl in Hown, Hkey, Hproto.
    + split; [|split].
      * intros name Hname. rewrite (Hown name Hname).
        rewrite (filter_cons_False _ p) by congruence. reflexivity.
      * exact Hkey.
      * rewrite Hproto, filter_cons_True by exact Hp. rewrite last_cons.
        destruct (last (filter (fun pueblo => nombre pueblo = protoKey)
                          newData)); reflexivity.
    + split; [|split].
      * intros name Hname. rewrite (Hown name Hname).
        destruct (decide (nombre p = name)) as [Heq|Hne].
        -- rewrite filter_cons_True by exact Heq. rewrite last_cons.
           destruct (last (filter (fun pueblo => nombre pueblo = name)
                             newData)); [reflexivity|].
           rewrite Heq. apply lookup_insert_eq.
        -- rewrite filter_cons_False by exact Hne.
           destruct (last (filter (fun pueblo => nombre pueblo = name)
                             newData)); [reflexivity|].
           apply lookup_insert_ne, Hne.
      * rewrite Hkey. apply lookup_insert_ne, Hp.
      * rewrite Hproto, (filter_cons_False _ p) by exact Hp. reflexivity.
Qed.

(** C1: a cycle whose request succeeds.  When the fingerprint of the fetched
    dataset is the retained one and the trigger is the timer, the cycle
    reports [Sin cambios] and leaves the reference [turismoDatos], the heap
    and the fingerprint as they were, without notifying.  When the
    fingerprints differ or the trigger is manual, [turismoDatos] refers to a
    newly allocated object holding the mapping built from the dataset (the
    objects already in the heap are not written), the fingerprint becomes the
    new one and [updatePueblosMagicosMarkers] runs once.  The mapping is
    built from the dataset alone: under every name it holds the last record
    of the dataset bearing that name, and nothing under a name that does not
    occur; the one name a plain object does not store as a key,
    [__proto__], leaves no own property, its last record becoming the
    prototype. *)
Theorem updateData_success
    (manual : bool) (status : Z) (csvText : jsstring) (st : State) :
  idle st ->
  let newData := parseCSVData csvText in
  let newHash := fingerprint newData in
  let st' := updateData manual (Response true status (Some csvText)) st in
  (Some newHash = lastDataHash st /\ manual = false ->
     last (statusLog st') = Some statusSinCambios
     /\ turismoDatos st' = turismoDatos st
     /\ heap st' = heap st
     /\ lastDataHash st' = lastDataHash st
     /\ markerUpdates st' = markerUpdates st)
  /\ (Some newHash <> lastDataHash st \/ manual = true ->
     (turismoDatos st' ∉ dom (heap st))
     /\ snapshot st' = Some (storeAll newData emptyObject)
     /\ (forall l, l ∈ dom (heap st) -> heap st' !! l = heap st !! l)
     /\ lastDataHash st' = Some newHash
     /\ markerUpdates st' = S (markerUpdates st)
     /\ last (statusLog st') = Some statusActualizados
     /\ (forall name, name <> protoKey ->
          own (storeAll newData emptyObject) !! name = lastNamed name newData)
     /\ own (storeAll newData emptyObject) !! protoKey = None
     /\ proto (storeAll newData emptyObject) = lastNamed protoKey newData).
Proof.
  intros Hidle newData newHash st'. split.
  - intros [Heq ->]. exact (updateData_unchanged status csvText st Hidle Heq).
  - intros Hacc.
    destruct (updateData_accepted manual status csvText st Hidle Hacc)
      as (H1 & H2 & H3 & H4 & H5 & H6).
    destruct (storeAll_content newData emptyObject) as (Hown & Hkey & Hproto).
    split; [exact H1|]. split; [exact H2|]. split; [exact H3|].
    split; [exact H4|]. split; [exact H5|]. split; [exact H6|].
    split; [|split].
    + intros name Hname. rewrite (Hown name Hname).
      destruct (lastNamed name newData); [reflexivity|apply lookup_empty].
    + rewrite Hkey. apply lookup_empty.
    + rewrite Hproto. destruct (lastNamed protoKey newData); reflexivity.
Qed.

Lemma updateData_success_witness :
  let csvText := js "Id,Name,Lat,Lon" ++ [LF] ++ js "1,Ajijic,20.3,-103.25" in
  let response := Response true 200 (Some csvText) in
  let st := updateData false response initialState in
  let st' := updateData false response st in
  let ajijic := {| nombre := js "Ajijic";
                   latitud := decimalValue false 203 (-1);
                   longitud := decimalValue true 10325 (-2);
                   seguridad := informacionNoDisponible;
                   securityTips := js "Information not available";
                   distancia := js "N/A";
                   ruta := js "#";
                   linkTurismo := js "#" |} in
  (snapshot st = Some (storeAll (parseCSVData csvText) emptyObject)
   /\ own (storeAll (parseCSVData csvText) emptyObject) !! js "Ajijic"
      = Some ajijic
   /\ own (storeAll (parseCSVData csvText) emptyObject) !! js "Tequila"
      = None
   /\ markerUpdates st = 1%nat
   /\ last (statusLog st) = Some statusActualizados)
  /\ (last (statusLog st') = Some statusSinCambios
      /\ turismoDatos st' = turismoDatos st
      /\ heap st' = heap st
      /\ markerUpdates st' = 1%nat).
Proof.
  intros csvText response st st' ajijic. split.
  - assert (Hidle : idle initialState) by (split; reflexivity).
    destruct (updateData_success false 200 csvText initialState Hidle)
      as [_ Hacc].
    destruct Hacc as (_ & H2 & _ & _ & H5 & H6 & Hown & _);
      [left; discriminate|].
    assert (Hajijic : lastNamed (js "Ajijic") (parseCSVData csvText)
                      = Some ajijic) by (vm_compute; reflexivity).
    assert (Htequila : lastNamed (js "Tequila") (parseCSVData csvText)
                       = None) by (vm_compute; reflexivity).
    split; [exact H2|].
    split; [rewrite <- Hajijic; apply Hown; discriminate|].
    split; [rewrite <- Htequila; apply Hown; discriminate|].
    exact (conj H5 H6).
  - assert (Hidle : idle st) by (split; vm_compute; reflexivity).
    destruct (updateData_success false 200 csvText st Hidle) as [Hsame _].
    assert (Heq : Some (fingerprint (parseCSVData csvText)) = lastDataHash st)
      by (vm_compute; reflexivity).
    destruct (Hsame (conj Heq eq_refl)) as (H1 & H2 & H3 & _ & H5).
    assert (Hm : markerUpdates st = 1%nat) by (vm_compute; reflexivity).
    rewrite Hm in H5. exact (conj H1 (conj H2 (conj H3 H5))).
Defined.

(** ** The scanner *)

Lemma trimStart_nil_iff s : trimStart s = [] <-> hasNonWhiteSpace s = false.
Proof.
  unfold hasNonWhiteSpace.
  induction s as [|c s IH]; simpl; [tauto|].
  destruct (isWhiteSpace c); simpl; [exact IH|].
  split; discriminate.
Qed.

Lemma hasNonWhiteSpace_app a b :
  hasNonWhiteSpace (a ++ b) = hasNonWhiteSpace a || hasNonWhiteSpace b.
Proof. apply existsb_app. Qed.

Lemma hasNonWhiteSpace_rev s : hasNonWhiteSpace (rev s) = hasNonWhiteSpace s.
Proof.
  induction s as [|c s IH]; [reflexivity|].
  simpl rev. rewrite hasNonWhiteSpace_app, IH.
  unfold hasNonWhiteSpace. simpl.
  rewrite orb_false_r. apply orb_comm.
Qed.

Lemma hasNonWhiteSpace_trimStart s :
  hasNonWhiteSpace (trimStart s) = hasNonWhiteSpace s.
Proof.
  induction s as [|c s IH]; [reflexivity|].
  unfold hasNonWhiteSpace in *. simpl.
  destruct (isWhiteSpace c) eqn:Hc; simpl; [exact IH|].
  rewrite Hc. reflexivity.
Qed.

(** A field has [trim().length > 0] exactly when one of its code units is
    not white space. *)
Lemma nonBlank_spec s : nonBlank s = hasNonWhiteSpace s.
Proof.
  unfold nonBlank, trim, trimEnd.
  rewrite length_rev.
  destruct (trimStart (rev (trimStart s))) as [|c t] eqn:Ht.
  - apply trimStart_nil_iff in Ht.
    rewrite hasNonWhiteSpace_rev, hasNonWhiteSpace_trimStart in Ht.
    rewrite Ht. reflexivity.
  - assert (Hne : hasNonWhiteSpace (rev (trimStart s)) <> false).
    { intros H. apply trimStart_nil_iff in H. congruence. }
    rewrite hasNonWhiteSpace_rev, hasNonWhiteSpace_trimStart in Hne.
    destruct (hasNonWhiteSpace s); [reflexivity|congruence].
Qed.

Section ScanFacts.
Variable hasContent : jsstring -> bool.

Lemma scan_cons char rest st :
  scan hasContent (char :: rest) st
  = scan hasContent
      (if snd (step hasContent char (head rest) st) then tail rest else rest)
      (fst (step hasContent char (head rest) st)).
Proof.
  simpl. destruct (step hasContent char (head rest) st) as [st' skip].
  destruct skip, rest; reflexivity.
Qed.



(** A property of the scanner state kept by every iteration is kept by
    the loop. *)
Lemma scan_invariant (ok : N -> Prop) (I : Scanner -> Prop) :
  (forall c nextChar st, ok c -> I st ->
                         I (fst (step hasContent c nextChar st))) ->
  forall text, Forall ok text -> forall st, I st ->
  I (scan hasContent text st).
Proof.
  intros Hstep text.
  assert (H : forall n text, (length text <= n)%nat -> Forall ok text ->
              forall st, I st -> I (scan hasContent text st)).
  { clear text. induction n as [|n IH]; intros text Hlen Hok st Hst.
    - destruct text; [exact Hst|simpl in Hlen; lia].
    - destruct text as [|c rest]; [exact Hst|].
      rewrite scan_cons. inversion Hok as [|? ? Hc Hrest]; subst.
      apply IH.
      + simpl in Hlen.
        destruct (snd _); [destruct rest; simpl in *; lia|lia].
      + destruct (snd _); [|exact Hrest].
        destruct rest; [constructor|]. inversion Hrest; assumption.
      + apply Hstep; assumption. }
  apply (H (length text)). lia.
Qed.

(** The loop as written stops within [csvText.length] iterations and
    computes [scan]. *)
Lemma forLoop_scan csvText fuel i st :
  (length csvText - i <= fuel)%nat ->
  forLoop hasContent fuel csvText i st
  = Some (scan hasContent (drop i csvText) st).
Proof.
  revert i st. induction fuel as [|fuel IH]; intros i st Hfuel.
  - simpl.
    assert (Hi : (length csvText <= i)%nat) by lia.
    rewrite (lookup_ge_None_2 csvText i Hi), drop_ge by lia. reflexivity.
  - simpl. destruct (csvText !! i) as [char|] eqn:Hchar.
    + rewrite (drop_S _ _ _ Hchar), scan_cons.
      assert (Hnext : head (drop (S i) csvText) = csvText !! S i).
      { rewrite <- (Nat.add_0_r (S i)) at 2. rewrite <- lookup_drop.
        destruct (drop (S i) csvText); reflexivity. }
      rewrite Hnext.
      destruct (step hasContent char (csvText !! S i) st) as [st' skip].
      simpl fst; simpl snd.
      apply lookup_lt_Some in Hchar.
      rewrite IH by (destruct skip; lia).
      destruct skip; [|reflexivity].
      f_equal. f_equal.
      replace (S (S i)) with (S i + 1)%nat by lia.
      rewrite <- (drop_drop csvText 1 (S i)).
      destruct (drop (S i) csvText); reflexivity.
    + apply lookup_ge_None_1 in Hchar.
      rewrite drop_ge by lia. reflexivity.
Qed.
End ScanFacts.

(** ** Quoted fields *)

Lemma joinWith_cons sep p q rest :
  joinWith sep (p :: q :: rest) = p ++ sep ++ joinWith sep (q :: rest).
Proof. reflexivity. Qed.

Section RoundTrip.
Variable hasContent : jsstring -> bool.
Hypothesis hasContent_nil : hasContent [] = false.

Lemma scan_quoted_tail value rest st :
  inQuotes st = true -> isQuote (head rest) = false ->
  scan hasContent (escapeQuotes value ++ QUOTE :: rest) st
  = scan hasContent rest (appendField value st).
Proof.
  intros Hin Hrest. revert st Hin.
  induction value as [|c value IH]; intros st Hin.
  - simpl app. rewrite scan_cons. unfold step.
    rewrite N.eqb_refl, Hin, Hrest. simpl.
    unfold appendField. rewrite app_nil_r. reflexivity.
  - unfold escapeQuotes. simpl flat_map. fold (escapeQuotes value).
    destruct (c =? QUOTE)%N eqn:Hc.
    + apply N.eqb_eq in Hc. subst c.
      simpl app. rewrite scan_cons. unfold step.
      rewrite N.eqb_refl, Hin. simpl.
      rewrite IH by reflexivity. unfold appendField. simpl.
      rewrite <- app_assoc. reflexivity.
    + simpl app. rewrite scan_cons. unfold step.
      rewrite Hc, Hin. simpl. rewrite !andb_false_r. simpl.
      rewrite IH by reflexivity. unfold appendField. simpl.
      rewrite <- app_assoc. reflexivity.
Qed.

(** Wherever a quoted value starts outside quoted mode and is not followed
    by a further quote, the scanner consumes exactly the quoted value and
    the current field grows by the original value. *)
Lemma scan_quoted value rest st :
  inQuotes st = false -> isQuote (head rest) = false ->
  scan hasContent (csvQuote value ++ rest) st
  = scan hasContent rest (appendField value st).
Proof.
  intros Hout Hrest. unfold csvQuote.
  rewrite <- !app_assoc. simpl app. rewrite scan_cons. unfold step.
  rewrite N.eqb_refl, Hout. simpl.
  rewrite scan_quoted_tail by (assumption || reflexivity). reflexivity.
Qed.

Lemma scan_record init last rest st :
  inQuotes st = false -> currentField st = [] ->
  isQuote (head rest) = false ->
  scan hasContent (csvRecord (init ++ [last]) ++ rest) st
  = scan hasContent rest
      {| rows := rows st; currentRow := currentRow st ++ init;
         currentField := last; inQuotes := false |}.
Proof.
  intros Hout Hfield Hrest. revert st Hout Hfield.
  induction init as [|f init IH]; intros st Hout Hfield.
  - change (csvRecord ([] ++ [last])) with (csvQuote last).
    rewrite app_nil_r, scan_quoted by assumption.
    unfold appendField. rewrite Hfield. reflexivity.
  - unfold csvRecord. simpl List.map.
    destruct (List.map csvQuote (init ++ [last])) as [|q qs] eqn:Hqs.
    { destruct init; discriminate. }
    rewrite joinWith_cons, <- Hqs, <- !app_assoc.
    change (joinWith [COMMA] (List.map csvQuote (init ++ [last])))
      with (csvRecord (init ++ [last])).
    rewrite scan_quoted by (assumption || reflexivity).
    simpl app. rewrite scan_cons. unfold step. simpl.
    rewrite IH by reflexivity. simpl.
    rewrite Hfield, <- app_assoc. reflexivity.
Qed.

Lemma content_pending init last :
  existsb hasContent (init ++ [last]) = true ->
  truthy last || (0 <? length init)%nat = true.
Proof.
  destruct init as [|f init]; [|intros _; apply orb_true_r].
  simpl. destruct last; [|reflexivity].
  rewrite hasContent_nil. discriminate.
Qed.

Lemma flush_table table done :
  Forall (fun fields => existsb hasContent fields = true) table ->
  flush hasContent
    (scan hasContent (csvTable table)
       {| rows := done; currentRow := []; currentField := [];
          inQuotes := false |})
  = done ++ table.
Proof.
  intros Htable. revert done.
  induction Htable as [|fields table Hfields _ IH]; intros done.
  - simpl. rewrite app_nil_r. reflexivity.
  - destruct (exists_last (l := fields)) as (init & last & ->).
    { intros ->. discriminate. }
    pose proof (content_pending init last Hfields) as Hpending.
    unfold csvTable. simpl List.map. fold (csvRecord (init ++ [last])).
    destruct (List.map csvRecord table) as [|r rs] eqn:Hrs.
    + destruct table; [|discriminate]. simpl joinWith.
      rewrite <- (app_nil_r (csvRecord _)).
      rewrite scan_record by reflexivity. simpl.
      unfold flush, pending, pushRow. simpl. rewrite Hpending, Hfields.
      reflexivity.
    + rewrite joinWith_cons, <- Hrs.
      change (joinWith [LF] (List.map csvRecord table)) with (csvTable table).
      rewrite scan_record by reflexivity.
      simpl app. rewrite scan_cons. unfold step, endRow, pending, pushRow.
      simpl. rewrite Hpending, Hfields. simpl.
      rewrite IH, <- app_assoc. reflexivity.
Qed.

(** Parsing the quoted rendering of a table gives the table back, as long
    as every record has a field the row filter counts as content. *)
Lemma parse_csvTable table :
  Forall (fun fields => existsb hasContent fields = true) table ->
  parseCSVTextWith hasContent (csvTable table) = table.
Proof. intros Htable. apply (flush_table table []), Htable. Qed.

(** An opening quote that is never closed: what follows it is the pending
    field, flushed at the end of the input. *)
Lemma scan_unterminated value st :
  inQuotes st = true -> Forall (fun c => c <> QUOTE) value ->
  scan hasContent value st
  = {| rows := rows st; currentRow := currentRow st;
       currentField := currentField st ++ value; inQuotes := true |}.
Proof.
  intros Hin Hvalue. revert st Hin.
  induction Hvalue as [|c value Hc _ IH]; intros st Hin.
  - simpl. rewrite app_nil_r, <- Hin. destruct st; reflexivity.
  - rewrite scan_cons. unfold step.
    apply N.eqb_neq in Hc. rewrite Hc, Hin. simpl.
    rewrite !andb_false_r. simpl.
    rewrite IH by reflexivity. simpl.
    rewrite <- app_assoc. reflexivity.
Qed.
End RoundTrip.

Lemma existsb_nonBlank row : existsb nonBlank row = existsb hasNonWhiteSpace row.
Proof.
  induction row as [|f row IH]; [reflexivity|].
  simpl. rewrite nonBlank_spec, IH. reflexivity.
Qed.

Lemma hasNonWhiteSpace_nonEmpty row :
  existsb hasNonWhiteSpace row = true -> existsb Mejorada.nonEmpty row = true.
Proof.
  induction row as [|f row IH]; [discriminate|].
  simpl. intros [Hf|Hrow]%orb_true_iff.
  - destruct f; [discriminate|reflexivity].
  - rewrite (IH Hrow). apply orb_true_r.
Qed.

(** C2: a table whose fields are all written quoted, with embedded quotes
    doubled, parses back to the same fields, in both revisions of the
    scanner, whenever every record has a field with a code unit that is not
    white space; in particular a single quoted value that contains a comma
    or a quote is recovered exactly.  More locally, a quoted value met outside
    quoted mode adds exactly the original value to the current field.  The
    iteration on a quote appends one quote and consumes two characters when
    in quoted mode and followed by a quote, and toggles the mode otherwise;
    in quoted mode every other character, comma and line breaks included, is
    appended to the field. *)
Theorem parseCSVText_quoted_round_trip
    (table : list Row) (value rest : jsstring) (st : Scanner)
    (char : N) (nextChar : option N) :
  (Forall (fun fields => existsb hasNonWhiteSpace fields = true) table ->
     parseCSVText (csvTable table) = table
     /\ Mejorada.parseCSVText (csvTable table) = table)
  /\ (In COMMA value \/ In QUOTE value \/ hasNonWhiteSpace value = true ->
     parseCSVText (csvQuote value) = [[value]]
     /\ Mejorada.parseCSVText (csvQuote value) = [[value]])
  /\ (inQuotes st = false -> isQuote (head rest) = false ->
     scan nonBlank (csvQuote value ++ rest) st
     = scan nonBlank rest (appendField value st))
  /\ step nonBlank QUOTE nextChar st
     = (if inQuotes st && isQuote nextChar
        then (appendChar QUOTE st, true) else (toggleQuotes st, false))
  /\ (inQuotes st = true -> char <> QUOTE ->
     step nonBlank char nextChar st = (appendChar char st, false)).
Proof.
  assert (Htable : forall t,
    Forall (fun fields => existsb hasNonWhiteSpace fields = true) t ->
    parseCSVText (csvTable t) = t /\ Mejorada.parseCSVText (csvTable t) = t).
  { intros t Ht. split.
    - apply parse_csvTable; [reflexivity|].
      eapply Forall_impl; [exact Ht|].
      intros fields Hf. simpl. rewrite existsb_nonBlank. exact Hf.
    - apply parse_csvTable; [reflexivity|].
      eapply Forall_impl; [exact Ht|].
      intros fields Hf. apply hasNonWhiteSpace_nonEmpty, Hf. }
  split; [apply Htable|]. split; [|split; [|split]].
  - intros Hvalue. apply (Htable [[value]]).
    constructor; [|constructor]. simpl. rewrite orb_false_r.
    destruct Hvalue as [Hin|[Hin|Hvalue]]; [| |exact Hvalue];
      apply existsb_exists; eexists; (split; [exact Hin|reflexivity]).
  - apply scan_quoted.
  - unfold step. rewrite N.eqb_refl. reflexivity.
  - intros Hin Hc. unfold step.
    apply N.eqb_neq in Hc. unfold appendChar. rewrite Hc, Hin. simpl.
    rewrite !andb_false_r. reflexivity.
Qed.

Lemma parseCSVText_quoted_round_trip_witness :
  let value := js "a, b" ++ [QUOTE] ++ js "c" ++ [QUOTE; LF] ++ js "d" in
  let table := [[js "Nombre"; js "Nota"]; [js "Ajijic"; value]; [[]; [CR; LF]; js "x"]] in
  let quoted := {| rows := []; currentRow := [js "Ajijic"];
                   currentField := js "a"; inQuotes := true |} in
  (parseCSVText (csvTable table) = table
   /\ Mejorada.parseCSVText (csvTable table) = table)
  /\ (parseCSVText (csvQuote value) = [[value]]
      /\ Mejorada.parseCSVText (csvQuote value) = [[value]])
  /\ scan nonBlank (csvQuote value ++ [COMMA]) initScanner
     = scan nonBlank [COMMA] (appendField value initScanner)
  /\ step nonBlank COMMA (Some LF) quoted = (appendChar COMMA quoted, false)
  /\ step nonBlank LF None quoted = (appendChar LF quoted, false).
Proof.
  intros value table quoted.
  pose proof (parseCSVText_quoted_round_trip table value [COMMA] initScanner)
    as Hscan.
  destruct (Hscan COMMA (Some LF)) as (Htable & Hvalue & Hplaced & _ & _).
  pose proof (parseCSVText_quoted_round_trip table value [COMMA] quoted)
    as Hstep.
  destruct (Hstep COMMA (Some LF)) as (_ & _ & _ & _ & Hcomma).
  destruct (Hstep LF None) as (_ & _ & _ & _ & Hbreak).
  split; [apply Htable; repeat constructor|].
  split; [apply Hvalue; left; vm_compute; tauto|].
  split; [apply Hplaced; reflexivity|].
  split; [apply Hcomma; [reflexivity|discriminate]|].
  apply Hbreak; [reflexivity|discriminate].
Defined.

(** C9: on every input the loop of [parseCSVText], run as it is written with
    its index, stops within [csvText.length] iterations, and the result of
    [parseCSVText] is the flush of the state it stops in; the function has
    no other input.  Malformed quoting is no exception: after a quote that
    is never closed, the rest of the input is the pending field, flushed as a
    row of its own (unless it is blank). *)
Theorem parseCSVText_total (csvText value : jsstring) :
  (exists st,
     forLoop nonBlank (length csvText) csvText 0 initScanner = Some st
     /\ parseCSVText csvText = flush nonBlank st)
  /\ (Forall (fun c => c <> QUOTE) value ->
      parseCSVText (QUOTE :: value)
      = if hasNonWhiteSpace value then [[value]] else []).
Proof.
  split.
  - exists (scan nonBlank csvText initScanner). split; [|reflexivity].
    rewrite forLoop_scan by lia. reflexivity.
  - intros Hvalue. unfold parseCSVText, parseCSVTextWith.
    rewrite scan_cons. unfold step. rewrite N.eqb_refl. simpl.
    rewrite scan_unterminated by (reflexivity || assumption).
    unfold flush, pending, pushRow. simpl.
    rewrite orb_false_r, nonBlank_spec.
    rewrite orb_false_r.
    destruct value as [|c value]; reflexivity.
Qed.

Lemma parseCSVText_total_witness :
  parseCSVText (QUOTE :: js "never closed, line 1" ++ [LF] ++ js "line 2")
  = [[js "never closed, line 1" ++ [LF] ++ js "line 2"]].
Proof.
  apply (parseCSVText_total []
           (js "never closed, line 1" ++ [LF] ++ js "line 2")).
  repeat constructor; discriminate.
Defined.

(** ** Blank rows *)

(** What the two row filters have in common. *)
Section RowFilter.
Variable hasContent : jsstring -> bool.









End RowFilter.







(** ** The normaliser *)

Lemma truthy_false_iff s : truthy s = false <-> s = [].
Proof. destruct s; simpl; split; congruence. Qed.

Lemma parseCSVData_omap csvText :
  parseCSVData csvText = omap processRow (drop 1 (parseCSVText csvText)).
Proof.
  unfold parseCSVData.
  destruct (parseCSVText csvText) as [|headers [|row rest]]; reflexivity.
Qed.

Lemma processRow_None_iff row :
  processRow row = None
  <-> cell nombreIndex row = [] \/ cell latitudIndex row = []
      \/ cell longitudIndex row = []
      \/ isNaN (latitudOf row) = true \/ isNaN (longitudOf row) = true.
Proof.
  unfold processRow, latitudOf, longitudOf.
  rewrite <- !truthy_false_iff.
  destruct (truthy (cell nombreIndex row)); simpl; [|tauto].
  destruct (truthy (cell latitudIndex row)); simpl; [|tauto].
  destruct (truthy (cell longitudIndex row)); simpl; [|tauto].
  destruct (isNaN (parseFloat (replaceFirst COMMA DOT (cell latitudIndex row))));
    simpl; [tauto|].
  destruct (isNaN (parseFloat (replaceFirst COMMA DOT (cell longitudIndex row))));
    simpl; [tauto|].
  split; [discriminate|]. intros [|[|[|[|]]]]; discriminate.
Qed.

Lemma processRow_Some row record :
  processRow row = Some record ->
  nombre record <> [] /\ isNaN (latitud record) = false
  /\ isNaN (longitud record) = false.
Proof.
  unfold processRow.
  destruct (truthy (cell nombreIndex row)) eqn:Hn; simpl; [|discriminate].
  destruct (truthy (cell latitudIndex row)); simpl; [|discriminate].
  destruct (truthy (cell longitudIndex row)); simpl; [|discriminate].
  destruct (isNaN (parseFloat (replaceFirst COMMA DOT (cell latitudIndex row))))
    eqn:Hlat; simpl; [discriminate|].
  destruct (isNaN (parseFloat (replaceFirst COMMA DOT (cell longitudIndex row))))
    eqn:Hlon; simpl; [discriminate|].
  intros [= <-]. simpl. repeat split; try assumption.
  intros Hnil. rewrite Hnil in Hn. discriminate.
Qed.

(** C5, as the code has it: the guard on the parsed coordinates is [isNaN].
    A data row contributes no record exactly when its name, latitude or
    longitude cell is empty after trimming or when a coordinate parses to
    NaN; the output is what the remaining rows contribute, in order; and
    every record of the output has a non-empty name and coordinates that are
    not NaN. *)
Theorem parseCSVData_skips_invalid_rows
    (csvText : jsstring) (before after : list Row) (row : Row)
    (record : Pueblo) :
  parseCSVData csvText = omap processRow (drop 1 (parseCSVText csvText))
  /\ (processRow row = None
      <-> cell nombreIndex row = [] \/ cell latitudIndex row = []
          \/ cell longitudIndex row = []
          \/ isNaN (latitudOf row) = true \/ isNaN (longitudOf row) = true)
  /\ (processRow row = None ->
      omap processRow (before ++ row :: after)
      = omap processRow (before ++ after))
  /\ (record ∈ parseCSVData csvText ->
      nombre record <> [] /\ isNaN (latitud record) = false
      /\ isNaN (longitud record) = false).
Proof.
  split; [apply parseCSVData_omap|].
  split; [apply processRow_None_iff|]. split.
  - intros Hrow. rewrite !omap_app. simpl. rewrite Hrow. reflexivity.
  - rewrite parseCSVData_omap. intros Hin.
    apply list_elem_of_omap in Hin as (r & _ & Hr).
    exact (processRow_Some r record Hr).
Qed.

Lemma parseCSVData_skips_invalid_rows_witness :
  let tequila := [js "1"; js "Tequila"; []; js "-103.8"] in
  let ajijic := [js "2"; js "Ajijic"; js "20,3"; js "-103.25"] in
  let csvText := js "Id,Name,Lat,Lon" ++ [LF] ++ js "1,Tequila,,-103.8"
                 ++ [LF] ++ js "2,Ajijic,20.3,-103.25" in
  let record := {| nombre := js "Ajijic";
                   latitud := decimalValue false 203 (-1);
                   longitud := decimalValue true 10325 (-2);
                   seguridad := informacionNoDisponible;
                   securityTips := js "Information not available";
                   distancia := js "N/A";
                   ruta := js "#";
                   linkTurismo := js "#" |} in
  processRow tequila = None
  /\ omap processRow ([ajijic] ++ tequila :: [ajijic])
     = omap processRow ([ajijic] ++ [ajijic])
  /\ parseCSVData csvText = [record]
  /\ (nombre record <> [] /\ isNaN (latitud record) = false
      /\ isNaN (longitud record) = false).
Proof.
  intros tequila ajijic csvText record.
  destruct (parseCSVData_skips_invalid_rows csvText [ajijic] [ajijic]
              tequila record) as (_ & Hnone & Hskip & Hrecord).
  assert (Htequila : processRow tequila = None).
  { apply Hnone. right. left. reflexivity. }
  assert (Hdata : parseCSVData csvText = [record]) by (vm_compute; reflexivity).
  split; [exact Htequila|]. split; [exact (Hskip Htequila)|].
  split; [exact Hdata|].
  apply Hrecord. rewrite Hdata. constructor.
Defined.

(** C5 as the specification states it fails: a coordinate cell reading
    [Infinity], or a numeral beyond the binary64 range, parses to an
    infinity, which [isNaN] lets through; the row contributes a record whose
    coordinates are not finite. *)
Lemma parseCSVData_accepts_infinite_coordinates :
  let csvText := js "Id,Name,Lat,Lon" ++ [LF] ++ js "1,Ajijic,Infinity,-1e999" in
  List.map (fun record => (nombre record, latitud record, longitud record,
                           isFinite (latitud record), isFinite (longitud record)))
           (parseCSVData csvText)
  = [(js "Ajijic", S754_infinity false, S754_infinity true, false, false)].
Proof. vm_compute. reflexivity. Qed.

(** C7, with the column positions the code fixes (name 1, latitude 2,
    longitude 3): a header row and one data row give one record, with the
    defaults for the missing cells. *)
Theorem parseCSVData_example :
  parseCSVData (js "Id,Name,Lat,Lon" ++ [LF] ++ js "1,Ajijic,20.3,-103.25" ++ [LF])
  = [ {| nombre := js "Ajijic";
         latitud := decimalValue false 203 (-1);
         longitud := decimalValue true 10325 (-2);
         seguridad := informacionNoDisponible;
         securityTips := js "Information not available";
         distancia := js "N/A";
         ruta := js "#";
         linkTurismo := js "#" |} ]
  /\ decimalValue false 203 (-1) = S754_finite false 5713942027226317 (-48)
  /\ decimalValue true 10325 (-2) = S754_finite true 7265572836343808 (-46)
  /\ numberToString (decimalValue false 203 (-1)) = js "20.3"
  /\ numberToString (decimalValue true 10325 (-2)) = js "-103.25".
Proof. repeat split; vm_compute; reflexivity. Qed.

(** C7 on the very text of the specification, whose name is in column 0: the
    code reads the name from column 1, finds no longitude in column 3, and
    skips the row. *)
Lemma parseCSVData_example_columns_from_zero :
  parseCSVData (js "Name,Lat,Lon" ++ [LF] ++ js "Ajijic,20.3,-103.25" ++ [LF])
  = [].
Proof. vm_compute. reflexivity. Qed.

(** ** The snapshot as a mapping *)

Lemma storeAll_cons p newData obj :
  nombre p <> protoKey ->
  storeAll (p :: newData) obj
  = storeAll newData
      {| own := <[nombre p := p]> (own obj); proto := proto obj |}.
Proof.
  intros Hp. unfold storeAll. simpl. unfold setProperty at 2.
  rewrite bool_decide_eq_false_2 by exact Hp. reflexivity.
Qed.

Lemma storeAll_spec newData obj :
  Forall (fun pueblo => nombre pueblo <> protoKey) newData ->
  proto (storeAll newData obj) = proto obj
  /\ ObjectKeys (storeAll newData obj)
     = list_to_set (nombre <$> newData) ∪ ObjectKeys obj
  /\ forall name,
       own (storeAll newData obj) !! name
       = match lastNamed name newData with
         | Some pueblo => Some pueblo
         | None => own obj !! name
         end.
Proof.
  intros Hdata. revert obj.
  induction Hdata as [|p newData Hp _ IH]; intros obj.
  - split; [reflexivity|]. split; [|reflexivity].
    unfold ObjectKeys. simpl. set_solver.
  - rewrite (storeAll_cons p newData obj Hp).
    destruct (IH {| own := <[nombre p := p]> (own obj); proto := proto obj |})
      as (Hproto & Hkeys & Hown).
    simpl in Hproto, Hown. split; [exact Hproto|]. split.
    + rewrite Hkeys. unfold ObjectKeys. simpl.
      rewrite dom_insert_L. set_solver.
    + intros name. rewrite Hown. unfold lastNamed.
      destruct (decide (nombre p = name)) as [Heq|Hne].
      * rewrite filter_cons_True by exact Heq. rewrite last_cons.
        destruct (last (filter _ newData)); [reflexivity|].
        rewrite Heq. apply lookup_insert_eq.
      * rewrite filter_cons_False by exact Hne.
        destruct (last (filter _ newData)); [reflexivity|].
        apply lookup_insert_ne, Hne.
Qed.

(** As long as no town is called [__proto__], the accepted snapshot maps
    every name of the dataset to the last record bearing it, and has no
    other key. *)
Lemma snapshot_last_writer_wins newData :
  Forall (fun pueblo => nombre pueblo <> protoKey) newData ->
  let obj := storeAll newData emptyObject in
  ObjectKeys obj = list_to_set (nombre <$> newData)
  /\ forall name, own obj !! name = lastNamed name newData.
Proof.
  intros Hdata obj.
  destruct (storeAll_spec newData emptyObject Hdata) as (_ & Hkeys & Hown).
  split.
  - subst obj. rewrite Hkeys. unfold ObjectKeys. simpl. set_solver.
  - intros name. subst obj. rewrite Hown.
    destruct (lastNamed name newData); [reflexivity|]. apply lookup_empty.
Qed.

(** C8 at a dataset with a town called [__proto__]: the assignment
    [turismoDatos[pueblo.nombre] = pueblo] replaces the prototype of the
    snapshot and creates no key, so the accepted snapshot has no key for a
    name that occurs in the dataset. *)
Theorem snapshot_misses_proto_name :
  let csvText := js "Id,Name,Lat,Lon" ++ [LF] ++ js "1,__proto__,20.3,-103.25" in
  let st' := updateData false (Response true 200 (Some csvText)) initialState in
  parseCSVData csvText = [puebloProto]
  /\ (exists obj, snapshot st' = Some obj
                  /\ ObjectKeys obj = ∅
                  /\ own obj !! protoKey = None
                  /\ proto obj = Some puebloProto)
  /\ list_to_set (nombre <$> [puebloProto]) <> (∅ : gset jsstring).
Proof.
  intros csvText st'.
  assert (Hdata : parseCSVData csvText = [puebloProto])
    by (vm_compute; reflexivity).
  split; [exact Hdata|]. split.
  - destruct (updateData_accepted false 200 csvText initialState
                (conj eq_refl eq_refl)) as (_ & Hsnap & _);
      [left; discriminate|].
    rewrite Hdata in Hsnap.
    exists (storeAll [puebloProto] emptyObject). split; [exact Hsnap|].
    unfold storeAll, setProperty. simpl fold_left.
    unfold ObjectKeys. simpl. rewrite dom_empty_L.
    repeat split.
  - intros Hempty.
    apply (not_elem_of_empty (C := gset jsstring) protoKey).
    rewrite <- Hempty. apply elem_of_list_to_set. constructor.
Qed.

(** * Further properties of the code *)

(** ** Cycles, one after another *)

Lemma run_app evs1 evs2 st : run (evs1 ++ evs2) st = run evs2 (run evs1 st).
Proof. apply fold_left_app. Qed.

Lemma calls_while_updating calls st :
  isUpdating st = true -> run (List.map call calls) st = st.
Proof.
  intros Hu. induction calls as [|m calls IH]; [reflexivity|].
  simpl. rewrite handle_call. unfold updateData_enter. rewrite Hu. exact IH.
Qed.

Lemma fetchThrows_iff r :
  fetchThrows r <-> exists err, fetchDataFromGoogleSheets r = inl err.
Proof.
  destruct r as [|ok status body]; simpl.
  - split; eauto.
  - destruct ok, body; simpl; split;
      (intros [H|H]; discriminate) || (intros [? H]; discriminate) || eauto.
Qed.

(** The statuses a cycle adds to the log. *)
Lemma updateData_statusLog manual r st :
  idle st ->
  exists outcome,
    statusLog (updateData manual r st)
    = statusLog st ++ (if manual then [statusActualizando] else []) ++ [outcome]
    /\ (outcome = statusActualizados \/ outcome = statusSinCambios
        \/ outcome = statusError).
Proof.
  intros Hidle. rewrite (updateData_idle manual r st Hidle).
  destruct Hidle as [Hu Ha].
  assert (Hlog : statusLog (popAwaiting (updateData_enter manual st))
                 = statusLog st ++ (if manual then [statusActualizando] else [])).
  { unfold updateData_enter. rewrite Hu.
    destruct manual; simpl; [reflexivity|]. rewrite app_nil_r. reflexivity. }
  remember (popAwaiting (updateData_enter manual st)) as st0 eqn:Est0.
  clear Est0. unfold updateData_resume.
  destruct (fetchDataFromGoogleSheets r) as [err|newData]; simpl.
  - exists statusError. rewrite Hlog, <- app_assoc. auto.
  - destruct (negb _ || manual); simpl.
    + exists statusActualizados.
      destruct (fold_storePueblo_frame newData (resetTurismoDatos st0))
        as (_ & _ & _ & Hs & _).
      simpl in Hs. rewrite Hs, Hlog, <- app_assoc. auto.
    + exists statusSinCambios. rewrite Hlog, <- app_assoc. auto.
Qed.

Lemma updateData_idle_after manual r st :
  idle st ->
  idle (updateData manual r st)
  /\ fetches (updateData manual r st) = S (fetches st).
Proof.
  intros Hidle. rewrite (updateData_idle manual r st Hidle).
  destruct Hidle as [Hu Ha].
  destruct (resume_frame manual r (popAwaiting (updateData_enter manual st)))
    as (Hf & Haw & Hfe).
  unfold idle. rewrite Hf, Haw, Hfe.
  unfold updateData_enter. rewrite Hu.
  destruct manual; simpl; rewrite Ha; auto.
Qed.

(** X1: whatever the outcome of its request, a cycle started from rest ends
    at rest: the flag is cleared and nothing stays suspended; it has issued
    exactly one request and reported exactly one outcome, after the
    [Actualizando] notice when it was manual. *)
Theorem updateData_returns_to_rest
    (manual : bool) (r : FetchOutcome) (st : State) :
  idle st ->
  let st' := updateData manual r st in
  idle st'
  /\ fetches st' = S (fetches st)
  /\ exists outcome,
       statusLog st'
       = statusLog st ++ (if manual then [statusActualizando] else [])
         ++ [outcome]
       /\ (outcome = statusActualizados \/ outcome = statusSinCambios
           \/ outcome = statusError).
Proof.
  intros Hidle st'.
  destruct (updateData_idle_after manual r st Hidle) as [Hrest Hfetch].
  split; [exact Hrest|]. split; [exact Hfetch|].
  exact (updateData_statusLog manual r st Hidle).
Qed.

Lemma updateData_returns_to_rest_witness :
  let st' := updateData true NetworkError initialState in
  idle st' /\ fetches st' = 1%nat
  /\ statusLog st' = [statusActualizando; statusError].
Proof.
  intros st'.
  destruct (updateData_returns_to_rest true NetworkError initialState
              (conj eq_refl eq_refl)) as (Hrest & Hfetch & _).
  split; [exact Hrest|]. split; [exact Hfetch|]. reflexivity.
Defined.

Lemma updateData_retains_fingerprint manual status csvText st :
  idle st ->
  lastDataHash (updateData manual (Response true status (Some csvText)) st)
  = Some (fingerprint (parseCSVData csvText)).
Proof.
  intros Hidle.
  destruct (decide (Some (fingerprint (parseCSVData csvText)) = lastDataHash st))
    as [Heq|Hne].
  - destruct manual.
    + destruct (updateData_accepted true status csvText st Hidle
                  (or_intror eq_refl)) as (_ & _ & _ & Hl & _). exact Hl.
    + destruct (updateData_unchanged status csvText st Hidle Heq)
        as (_ & _ & _ & Hl & _). rewrite Heq. exact Hl.
  - destruct (updateData_accepted manual status csvText st Hidle
                (or_introl Hne)) as (_ & _ & _ & Hl & _). exact Hl.
Qed.

(** X2: publishing is idempotent for the timer.  After any cycle that
    fetched a text, a timer cycle that fetches the same text again reports
    [Sin cambios], keeps the very object [turismoDatos] refers to, and does
    not notify. *)
Theorem updateData_same_text_again
    (manual : bool) (status1 status2 : Z) (csvText : jsstring) (st : State) :
  idle st ->
  let st1 := updateData manual (Response true status1 (Some csvText)) st in
  let st2 := updateData false (Response true status2 (Some csvText)) st1 in
  last (statusLog st2) = Some statusSinCambios
  /\ turismoDatos st2 = turismoDatos st1
  /\ heap st2 = heap st1
  /\ lastDataHash st2 = lastDataHash st1
  /\ markerUpdates st2 = markerUpdates st1.
Proof.
  intros Hidle st1 st2.
  destruct (updateData_idle_after manual (Response true status1 (Some csvText))
              st Hidle) as [Hidle1 _].
  apply (updateData_unchanged status2 csvText st1 Hidle1).
  symmetry. apply updateData_retains_fingerprint, Hidle.
Qed.

Lemma updateData_same_text_again_witness :
  let csvText := js "Id,Name,Lat,Lon" ++ [LF] ++ js "1,Ajijic,20.3,-103.25" in
  let st1 := updateData true (Response true 200 (Some csvText)) initialState in
  let st2 := updateData false (Response true 200 (Some csvText)) st1 in
  last (statusLog st2) = Some statusSinCambios
  /\ turismoDatos st2 = turismoDatos st1.
Proof.
  intros csvText st1 st2.
  destruct (updateData_same_text_again true 200 200 csvText initialState
              (conj eq_refl eq_refl)) as (Hs & Ht & _).
  exact (conj Hs Ht).
Defined.

(** X3: calls made while a cycle is in flight are dropped, not deferred:
    once the request settles the page is where the cycle alone would have
    left it.  A click during a timer cycle therefore forces nothing. *)
Theorem calls_in_flight_are_dropped
    (manual : bool) (calls : list bool) (r : FetchOutcome) (st : State) :
  idle st ->
  run (call manual :: List.map call calls ++ [Settle r]) st
  = updateData manual r st.
Proof.
  intros [Hu Ha]. unfold updateData.
  change (if manual then Click else Tick) with (call manual).
  change (call manual :: List.map call calls ++ [Settle r])
    with ([call manual] ++ List.map call calls ++ [Settle r]).
  change [call manual; Settle r] with ([call manual] ++ [Settle r]).
  rewrite !run_app. f_equal.
  apply calls_while_updating.
  simpl. rewrite handle_call. unfold updateData_enter. rewrite Hu.
  destruct manual; reflexivity.
Qed.

Lemma calls_in_flight_are_dropped_witness :
  run [Tick; Click; Click; Tick; Settle NetworkError] initialState
  = updateData false NetworkError initialState.
Proof.
  apply (calls_in_flight_are_dropped false [true; true; false] NetworkError
           initialState).
  split; reflexivity.
Defined.

(** X4: the cycle treats every way the fetch can throw alike, a response
    whose body cannot be read included: the snapshot reference, the heap and
    the fingerprint stay, the error status is reported, nobody is notified.
    The fetch throws exactly when the request is rejected, the status is
    not a success, or the body cannot be read. *)
Theorem updateData_on_any_throw
    (manual : bool) (r : FetchOutcome) (st : State) :
  (fetchThrows r <-> exists err, fetchDataFromGoogleSheets r = inl err)
  /\ (idle st -> fetchThrows r ->
      let st' := updateData manual r st in
      turismoDatos st' = turismoDatos st
      /\ heap st' = heap st
      /\ lastDataHash st' = lastDataHash st
      /\ markerUpdates st' = markerUpdates st
      /\ last (statusLog st') = Some statusError).
Proof.
  split; [apply fetchThrows_iff|].
  intros Hidle Hthrow st'. subst st'.
  rewrite (updateData_idle manual r st Hidle).
  destruct Hidle as [Hu Ha].
  apply fetchThrows_iff in Hthrow as [err Herr].
  unfold updateData_resume. rewrite Herr.
  unfold updateData_enter. rewrite Hu.
  destruct manual; simpl; rewrite ?last_snoc; repeat split; reflexivity.
Qed.

Lemma updateData_on_any_throw_witness :
  let csvText := js "Id,Name,Lat,Lon" ++ [LF] ++ js "1,Ajijic,20.3,-103.25" in
  let st := updateData false (Response true 200 (Some csvText)) initialState in
  let st' := updateData false (Response true 200 None) st in
  turismoDatos st' = turismoDatos st /\ heap st' = heap st
  /\ last (statusLog st') = Some statusError.
Proof.
  intros csvText st st'.
  assert (Hidle : idle st) by (split; vm_compute; reflexivity).
  destruct (updateData_on_any_throw false (Response true 200 None) st)
    as [_ Hkeep].
  destruct (Hkeep Hidle (or_intror eq_refl)) as (Ht & Hh & _ & _ & Hs).
  exact (conj Ht (conj Hh Hs)).
Defined.

(** ** Published objects *)

Lemma resume_keeps_objects manual r st l obj :
  heap st !! l = Some obj ->
  heap (updateData_resume manual r st) !! l = Some obj.
Proof.
  intros Hl. unfold updateData_resume.
  destruct (fetchDataFromGoogleSheets r) as [err|newData]; simpl; [exact Hl|].
  destruct (negb _ || manual); simpl; [|exact Hl].
  rewrite accept_heap. rewrite lookup_insert_ne; [exact Hl|].
  intros Heq. apply (is_fresh (dom (heap st))).
  rewrite Heq. apply elem_of_dom. eauto.
Qed.

Lemma handle_keeps_objects st ev l obj :
  heap st !! l = Some obj -> heap (handle st ev) !! l = Some obj.
Proof.
  intros Hl.
  assert (Henter : forall m, heap (updateData_enter m st) !! l = Some obj).
  { intros m. unfold updateData_enter.
    destruct (isUpdating st); [exact Hl|]. destruct m; exact Hl. }
  destruct ev as [| |r]; simpl; [apply Henter..|].
  destruct (awaiting st) as [|m rest]; [exact Hl|].
  apply resume_keeps_objects. exact Hl.
Qed.

Lemma resume_snapshot_defined manual r st :
  is_Some (snapshot st) -> is_Some (snapshot (updateData_resume manual r st)).
Proof.
  intros Hsnap. unfold updateData_resume.
  destruct (fetchDataFromGoogleSheets r) as [err|newData]; simpl;
    [exact Hsnap|].
  destruct (negb _ || manual); simpl; [|exact Hsnap].
  unfold snapshot. simpl.
  destruct (fold_storePueblo_frame newData (resetTurismoDatos st))
    as (_ & _ & Ht & _).
  simpl in Ht. rewrite Ht, accept_heap, lookup_insert_eq. eauto.
Qed.

Lemma handle_snapshot_defined st ev :
  is_Some (snapshot st) -> is_Some (snapshot (handle st ev)).
Proof.
  intros Hsnap.
  assert (Henter : forall m, is_Some (snapshot (updateData_enter m st))).
  { intros m. unfold updateData_enter.
    destruct (isUpdating st); [exact Hsnap|]. destruct m; exact Hsnap. }
  destruct ev as [| |r]; simpl; [apply Henter..|].
  destruct (awaiting st) as [|m rest]; [exact Hsnap|].
  apply resume_snapshot_defined. exact Hsnap.
Qed.

(** X5: an object, once in the heap, is never written again: whoever holds
    a snapshot that was published keeps seeing it as it was, whatever the
    page receives afterwards.  And the global [turismoDatos] always refers
    to an object. *)
Theorem published_objects_are_immutable
    (evs : list Event) (st : State) (l : loc) (obj : JSObject) :
  (heap st !! l = Some obj -> heap (run evs st) !! l = Some obj)
  /\ is_Some (snapshot (run evs initialState)).
Proof.
  split.
  - revert st. induction evs as [|ev evs IH]; intros st Hl; [exact Hl|].
    simpl. apply IH, handle_keeps_objects, Hl.
  - assert (H : forall st, is_Some (snapshot st) ->
                           is_Some (snapshot (run evs st))).
    { induction evs as [|ev evs IH]; intros s Hs; [exact Hs|].
      simpl. apply IH, handle_snapshot_defined, Hs. }
    apply H. unfold snapshot. simpl. rewrite lookup_singleton_eq. eauto.
Qed.

Lemma published_objects_are_immutable_witness :
  let csv1 := js "Id,Name,Lat,Lon" ++ [LF] ++ js "1,Ajijic,20.3,-103.25" in
  let csv2 := js "Id,Name,Lat,Lon" ++ [LF] ++ js "1,Tequila,20.9,-103.8" in
  let st := updateData false (Response true 200 (Some csv1)) initialState in
  let later := [Tick; Settle (Response true 200 (Some csv2)); Click;
                Settle NetworkError] in
  heap (run later st) !! turismoDatos st
  = Some (storeAll (parseCSVData csv1) emptyObject).
Proof.
  intros csv1 csv2 st later.
  apply (published_objects_are_immutable later st).
  vm_compute. reflexivity.
Defined.

(** ** An empty dataset *)

Lemma fingerprint_nil : fingerprint [] = 2914.
Proof. reflexivity. Qed.

(** X6: a successful response with no valid row (an empty body, a header
    alone, rows without coordinates) is a dataset like any other: unless the
    retained fingerprint already is that of the empty dataset, the cycle
    replaces the snapshot by an empty object and notifies, so every town
    disappears.  The last good snapshot is kept on errors only. *)
Theorem empty_dataset_clears_snapshot
    (manual : bool) (status : Z) (csvText : jsstring) (st : State) :
  idle st -> parseCSVData csvText = [] ->
  lastDataHash st <> Some 2914 \/ manual = true ->
  let st' := updateData manual (Response true status (Some csvText)) st in
  snapshot st' = Some emptyObject
  /\ lastDataHash st' = Some 2914
  /\ markerUpdates st' = S (markerUpdates st)
  /\ last (statusLog st') = Some statusActualizados.
Proof.
  intros Hidle Hdata Hnew st'.
  assert (Hacc : Some (fingerprint (parseCSVData csvText)) <> lastDataHash st
                 \/ manual = true).
  { destruct Hnew as [Hne|Hm]; [left|right; exact Hm].
    rewrite Hdata, fingerprint_nil. congruence. }
  destruct (updateData_accepted manual status csvText st Hidle Hacc)
    as (_ & Hsnap & _ & Hl & Hm & Hs).
  rewrite Hdata in Hsnap, Hl. rewrite fingerprint_nil in Hl.
  repeat split; assumption.
Qed.

Lemma empty_dataset_clears_snapshot_witness :
  let csvText := js "Id,Name,Lat,Lon" ++ [LF] ++ js "1,Ajijic,20.3,-103.25" in
  let st := updateData false (Response true 200 (Some csvText)) initialState in
  let st' := updateData false (Response true 200 (Some [])) st in
  (exists obj, snapshot st = Some obj /\ ObjectKeys obj = {[ js "Ajijic" ]})
  /\ snapshot st' = Some emptyObject.
Proof.
  intros csvText st st'. split.
  - destruct (updateData_accepted false 200 csvText initialState
                (conj eq_refl eq_refl)) as (_ & Hsnap & _);
      [left; discriminate|].
    eexists. split; [exact Hsnap|].
    assert (Hdata : parseCSVData csvText
                    = [renamed (js "Ajijic") puebloProto])
      by (vm_compute; reflexivity).
    rewrite Hdata. unfold storeAll, setProperty. simpl fold_left.
    unfold ObjectKeys. simpl. rewrite dom_insert_L, dom_empty_L.
    apply union_empty_r_L.
  - assert (Hidle : idle st) by (split; vm_compute; reflexivity).
    assert (Hlast : lastDataHash st <> Some 2914)
      by (vm_compute; discriminate).
    destruct (empty_dataset_clears_snapshot false 200 [] st Hidle eq_refl
                (or_introl Hlast)) as (Hsnap & _).
    exact Hsnap.
Defined.

(** ** The fingerprint as a polynomial hash *)

Lemma toInt32_mul_add k a c :
  toInt32 (k * toInt32 a + c) = toInt32 (k * a + c).
Proof.
  unfold toInt32. f_equal.
  rewrite (Z.mod_eq (a + 2 ^ 31) (2 ^ 32)) by lia.
  replace (k * (a + 2 ^ 31 - 2 ^ 32 * ((a + 2 ^ 31) / 2 ^ 32) - 2 ^ 31)
           + c + 2 ^ 31)
    with (k * a + c + 2 ^ 31 + (- k * ((a + 2 ^ 31) / 2 ^ 32)) * 2 ^ 32)
    by ring.
  apply Z_mod_plus_full.
Qed.

Lemma hashStep_31 a b : hashStep a b = toInt32 (31 * a + Z.of_N b).
Proof.
  rewrite hashStep_toInt32. unfold shl5.
  rewrite Z.shiftl_mul_pow2 by lia.
  replace (toInt32 (toInt32 a * 2 ^ 5) - a + Z.of_N b)
    with (1 * toInt32 (toInt32 a * 2 ^ 5) + (- a + Z.of_N b)) by ring.
  rewrite toInt32_mul_add.
  replace (1 * (toInt32 a * 2 ^ 5) + (- a + Z.of_N b))
    with (2 ^ 5 * toInt32 a + (- a + Z.of_N b)) by ring.
  rewrite toInt32_mul_add. f_equal. lia.
Qed.

Lemma fold_hashStep_poly s a a' :
  toInt32 a' = a -> fold_left hashStep s a = toInt32 (polyHash s a').
Proof.
  revert a a'. induction s as [|b s IH]; intros a a' Ha; simpl.
  - symmetry. exact Ha.
  - apply IH. rewrite hashStep_31, <- Ha. symmetry. apply toInt32_mul_add.
Qed.

(** X7: the 32-bit steps of the reducer add up to one reduction at the end:
    the fingerprint is the base-31 polynomial of the code units of the JSON
    text (the hash of Java's [String.hashCode]), wrapped once to a signed
    32-bit integer. *)
Theorem fingerprint_is_polynomial_hash (newData : list Pueblo) (s : jsstring) :
  fold_left hashStep s 0 = toInt32 (polyHash s 0)
  /\ fingerprint newData = toInt32 (polyHash (JSON_stringify newData) 0)
  /\ (forall t a, polyHash (s ++ t) a = polyHash t (polyHash s a))
  /\ (forall a c, polyHash [c] a = 31 * a + Z.of_N c).
Proof.
  split; [apply fold_hashStep_poly; reflexivity|].
  split; [apply fold_hashStep_poly; reflexivity|].
  split; [intros t a; apply fold_left_app|reflexivity].
Qed.

Lemma fold_hashStep_pair h a b :
  fold_left hashStep [a; b] h
  = toInt32 (961 * h + (31 * Z.of_N a + Z.of_N b)).
Proof.
  simpl. rewrite (hashStep_31 h a), hashStep_31, toInt32_mul_add.
  f_equal. ring.
Qed.

Lemma hash_collision_pair X Y a b c d :
  31 * Z.of_N a + Z.of_N b = 31 * Z.of_N c + Z.of_N d ->
  fold_left hashStep (X ++ [a; b] ++ Y) 0
  = fold_left hashStep (X ++ [c; d] ++ Y) 0.
Proof.
  intros Heq. rewrite !fold_left_app, !fold_hashStep_pair, Heq. reflexivity.
Qed.

Lemma quoteBody_app x pre rest :
  isTrailingSurrogate x = false ->
  quoteBody (pre ++ x :: rest) = quoteBody pre ++ quoteBody (x :: rest).
Proof.
  intros Hx.
  assert (H : forall n pre, (length pre <= n)%nat ->
    quoteBody (pre ++ x :: rest) = quoteBody pre ++ quoteBody (x :: rest)).
  { clear pre. induction n as [|n IH]; intros pre Hlen.
    - destruct pre; [reflexivity|simpl in Hlen; lia].
    - destruct pre as [|c [|d pre]]; [reflexivity| |].
      + change (quoteBody ([c] ++ x :: rest))
          with (if isLeadingSurrogate c && isTrailingSurrogate x
                then c :: x :: quoteBody rest
                else escapeUnit c ++ quoteBody (x :: rest)).
        rewrite Hx, andb_false_r. reflexivity.
      + change (quoteBody ((c :: d :: pre) ++ x :: rest))
          with (if isLeadingSurrogate c && isTrailingSurrogate d
                then c :: d :: quoteBody (pre ++ x :: rest)
                else escapeUnit c ++ quoteBody ((d :: pre) ++ x :: rest)).
        change (quoteBody (c :: d :: pre))
          with (if isLeadingSurrogate c && isTrailingSurrogate d
                then c :: d :: quoteBody pre
                else escapeUnit c ++ quoteBody (d :: pre)).
        simpl in Hlen.
        destruct (isLeadingSurrogate c && isTrailingSurrogate d).
        * rewrite IH by lia. reflexivity.
        * rewrite IH by (simpl; lia). rewrite app_assoc. reflexivity. }
  apply (H (length pre)). lia.
Qed.

Lemma quoteBody_plain_pair a b post :
  jsonPlain a -> jsonPlain b ->
  quoteBody (a :: b :: post) = [a; b] ++ quoteBody post.
Proof.
  intros (Ha & Hla & _) (Hb & Hlb & _).
  change (quoteBody (a :: b :: post))
    with (if isLeadingSurrogate a && isTrailingSurrogate b
          then a :: b :: quoteBody post
          else escapeUnit a ++ quoteBody (b :: post)).
  rewrite Hla, Ha. simpl.
  destruct post as [|d post].
  - simpl. rewrite Hb. reflexivity.
  - change (quoteBody (b :: d :: post))
      with (if isLeadingSurrogate b && isTrailingSurrogate d
            then b :: d :: quoteBody post
            else escapeUnit b ++ quoteBody (d :: post)).
    rewrite Hlb, Hb. reflexivity.
Qed.

Lemma joinWith_tail sep y zs :
  joinWith sep (y :: zs) = y ++ flat_map (fun z => sep ++ z) zs.
Proof.
  revert y. induction zs as [|z zs IH]; intros y.
  - simpl. rewrite app_nil_r. reflexivity.
  - rewrite joinWith_cons, IH. simpl. rewrite <- app_assoc. reflexivity.
Qed.

Lemma joinWith_middle sep xs y zs :
  joinWith sep (xs ++ y :: zs)
  = flat_map (fun x => x ++ sep) xs ++ y ++ flat_map (fun z => sep ++ z) zs.
Proof.
  induction xs as [|x xs IH]; [apply joinWith_tail|].
  simpl app. destruct (xs ++ y :: zs) as [|w ws] eqn:Hw.
  { destruct xs; discriminate. }
  rewrite joinWith_cons, IH. simpl. rewrite <- !app_assoc. reflexivity.
Qed.

(** The JSON text of a dataset around the name of one of its records. *)
Lemma JSON_stringify_around_name before pueblo after :
  exists L R, forall name,
    JSON_stringify (before ++ renamed name pueblo :: after)
    = L ++ quoteBody name ++ R.
Proof.
  exists ([91%N] ++ flat_map (fun x => x ++ [COMMA]) (List.map jsonPueblo before)
          ++ [123%N] ++ jsonKey "nombre" ++ [QUOTE]).
  exists ([QUOTE] ++ [COMMA]
          ++ jsonKey "latitud" ++ jsonNumber (latitud pueblo) ++ [COMMA]
          ++ jsonKey "longitud" ++ jsonNumber (longitud pueblo) ++ [COMMA]
          ++ jsonKey "seguridad" ++ quoteJSONString (seguridad pueblo) ++ [COMMA]
          ++ jsonKey "securityTips" ++ quoteJSONString (securityTips pueblo)
          ++ [COMMA]
          ++ jsonKey "distancia" ++ quoteJSONString (distancia pueblo) ++ [COMMA]
          ++ jsonKey "ruta" ++ quoteJSONString (ruta pueblo) ++ [COMMA]
          ++ jsonKey "linkTurismo" ++ quoteJSONString (linkTurismo pueblo)
          ++ [125%N]
          ++ flat_map (fun z => [COMMA] ++ z) (List.map jsonPueblo after)
          ++ [93%N]).
  intros name. unfold JSON_stringify.
  rewrite map_app. simpl List.map. rewrite joinWith_middle.
  unfold jsonPueblo at 2. unfold quoteJSONString at 1. simpl nombre.
  simpl latitud. simpl longitud. simpl seguridad. simpl securityTips.
  simpl distancia. simpl ruta. simpl linkTurismo.
  rewrite <- !app_assoc. reflexivity.
Qed.

Lemma fingerprint_collision before pueblo after pre post a b c d :
  jsonPlain a -> jsonPlain b -> jsonPlain c -> jsonPlain d ->
  31 * Z.of_N a + Z.of_N b = 31 * Z.of_N c + Z.of_N d ->
  fingerprint (before ++ renamed (pre ++ a :: b :: post) pueblo :: after)
  = fingerprint (before ++ renamed (pre ++ c :: d :: post) pueblo :: after).
Proof.
  intros Ha Hb Hc Hd Heq.
  destruct (JSON_stringify_around_name before pueblo after) as (L & R & HJ).
  unfold fingerprint. rewrite !HJ.
  rewrite (quoteBody_app a) by apply Ha.
  rewrite (quoteBody_app c) by apply Hc.
  rewrite (quoteBody_plain_pair a b) by assumption.
  rewrite (quoteBody_plain_pair c d) by assumption.
  rewrite <- !app_assoc.
  rewrite !(app_assoc L (quoteBody pre)).
  apply (hash_collision_pair (L ++ quoteBody pre) (quoteBody post ++ R)), Heq.
Qed.

(** X8: the fingerprint can miss a change.  Two datasets that differ in two
    adjacent characters of one town's name, [a b] against [c d] with
    [31 a + b = 31 c + d], have the same fingerprint; when the sheet goes
    from one to the other, the timer cycle reports [Sin cambios] and the
    snapshot keeps the old name. *)
Theorem renamed_town_goes_unnoticed
    (before after : list Pueblo) (pueblo : Pueblo) (pre post : jsstring)
    (a b c d : N) (csv1 csv2 : jsstring) (manual : bool) (status : Z)
    (st : State) :
  jsonPlain a -> jsonPlain b -> jsonPlain c -> jsonPlain d ->
  31 * Z.of_N a + Z.of_N b = 31 * Z.of_N c + Z.of_N d ->
  parseCSVData csv1
  = before ++ renamed (pre ++ a :: b :: post) pueblo :: after ->
  parseCSVData csv2
  = before ++ renamed (pre ++ c :: d :: post) pueblo :: after ->
  idle st ->
  let st1 := updateData manual (Response true status (Some csv1)) st in
  let st2 := updateData false (Response true status (Some csv2)) st1 in
  fingerprint (parseCSVData csv1) = fingerprint (parseCSVData csv2)
  /\ snapshot st2 = snapshot st1
  /\ markerUpdates st2 = markerUpdates st1
  /\ last (statusLog st2) = Some statusSinCambios.
Proof.
  intros Ha Hb Hc Hd Heq H1 H2 Hidle st1 st2.
  assert (Hfp : fingerprint (parseCSVData csv1) = fingerprint (parseCSVData csv2)).
  { rewrite H1, H2. apply fingerprint_collision; assumption. }
  split; [exact Hfp|].
  destruct (updateData_idle_after manual (Response true status (Some csv1))
              st Hidle) as [Hidle1 _].
  assert (Hlast : Some (fingerprint (parseCSVData csv2)) = lastDataHash st1).
  { rewrite <- Hfp. symmetry. apply updateData_retains_fingerprint, Hidle. }
  destruct (updateData_unchanged status csv2 st1 Hidle1 Hlast)
    as (Hs & Ht & Hh & _ & Hm).
  fold st2 in Hs, Ht, Hh, Hm.
  unfold snapshot. rewrite Ht, Hh. auto.
Qed.

Lemma renamed_town_goes_unnoticed_witness :
  let csv1 := js "Id,Name,Lat,Lon" ++ [LF] ++ js "1,Aa,20.3,-103.25" in
  let csv2 := js "Id,Name,Lat,Lon" ++ [LF] ++ js "1,BB,20.3,-103.25" in
  let st1 := updateData false (Response true 200 (Some csv1)) initialState in
  let st2 := updateData false (Response true 200 (Some csv2)) st1 in
  List.map nombre (parseCSVData csv1) = [js "Aa"]
  /\ List.map nombre (parseCSVData csv2) = [js "BB"]
  /\ snapshot st2 = snapshot st1
  /\ last (statusLog st2) = Some statusSinCambios.
Proof.
  intros csv1 csv2 st1 st2.
  assert (H1 : parseCSVData csv1
               = [] ++ renamed ([] ++ 65%N :: 97%N :: []) puebloProto :: [])
    by (vm_compute; reflexivity).
  assert (H2 : parseCSVData csv2
               = [] ++ renamed ([] ++ 66%N :: 66%N :: []) puebloProto :: [])
    by (vm_compute; reflexivity).
  assert (Hplain : forall x, x = 65%N \/ x = 97%N \/ x = 66%N -> jsonPlain x).
  { intros x [->|[->| ->]]; repeat split. }
  destruct (renamed_town_goes_unnoticed [] [] puebloProto [] []
              65 97 66 66 csv1 csv2 false 200 initialState
              (Hplain _ (or_introl eq_refl))
              (Hplain _ (or_intror (or_introl eq_refl)))
              (Hplain _ (or_intror (or_intror eq_refl)))
              (Hplain _ (or_intror (or_intror eq_refl)))
              eq_refl H1 H2 (conj eq_refl eq_refl))
    as (_ & Hsnap & _ & Hs).
  split; [vm_compute; reflexivity|]. split; [vm_compute; reflexivity|].
  exact (conj Hsnap Hs).
Defined.

(** ** Tables as a spreadsheet writes them *)

Lemma writeTable_snoc lineBreak table row :
  writeTable lineBreak (table ++ [row])
  = flat_map (fun r => writeRecord r ++ lineBreak) table ++ writeRecord row.
Proof.
  unfold writeTable. induction table as [|r table IH]; [reflexivity|].
  simpl List.map. simpl flat_map.
  destruct (List.map writeRecord (table ++ [row])) as [|q qs] eqn:Hqs.
  { destruct table; discriminate. }
  rewrite joinWith_cons, IH, <- !app_assoc. reflexivity.
Qed.

Lemma writeTable_lines lineBreak table :
  table <> [] ->
  writeTable lineBreak table ++ lineBreak
  = flat_map (fun r => writeRecord r ++ lineBreak) table.
Proof.
  intros Htable.
  destruct (exists_last Htable) as (init & last & ->).
  rewrite writeTable_snoc, flat_map_app, <- app_assoc. simpl.
  rewrite app_nil_r. reflexivity.
Qed.

Section WriteRoundTrip.
Variable hasContent : jsstring -> bool.
Hypothesis hasContent_nil : hasContent [] = false.

Lemma step_ordinary c nextChar st :
  isSpecial c = false -> inQuotes st = false ->
  step hasContent c nextChar st = (appendChar c st, false).
Proof.
  unfold isSpecial. intros Hc Hout.
  apply orb_false_iff in Hc as [Hc Hlf].
  apply orb_false_iff in Hc as [Hc Hcr].
  apply orb_false_iff in Hc as [Hq Hcomma].
  unfold step. rewrite Hq, Hcomma, Hlf, Hcr. reflexivity.
Qed.

Lemma scan_unquoted value rest st :
  inQuotes st = false -> needsQuoting value = false ->
  scan hasContent (value ++ rest) st
  = scan hasContent rest (appendField value st).
Proof.
  revert st. induction value as [|c value IH]; intros st Hout Hvalue.
  - simpl. unfold appendField. rewrite app_nil_r, <- Hout.
    destruct st; reflexivity.
  - unfold needsQuoting in Hvalue. simpl in Hvalue.
    apply orb_false_iff in Hvalue as [Hc Hvalue].
    rewrite <- app_comm_cons, scan_cons, (step_ordinary _ _ _ Hc Hout).
    simpl fst; simpl snd. rewrite IH by assumption.
    unfold appendField. simpl. rewrite <- app_assoc. reflexivity.
Qed.

Lemma scan_writeField value rest st :
  inQuotes st = false -> isQuote (head rest) = false ->
  scan hasContent (writeField value ++ rest) st
  = scan hasContent rest (appendField value st).
Proof.
  intros Hout Hrest. unfold writeField.
  destruct (needsQuoting value) eqn:Hq.
  - apply scan_quoted; assumption.
  - apply scan_unquoted; assumption.
Qed.

Lemma scan_writeRecord init last rest st :
  inQuotes st = false -> currentField st = [] ->
  isQuote (head rest) = false ->
  scan hasContent (writeRecord (init ++ [last]) ++ rest) st
  = scan hasContent rest
      {| rows := rows st; currentRow := currentRow st ++ init;
         currentField := last; inQuotes := false |}.
Proof.
  intros Hout Hfield Hrest. revert st Hout Hfield.
  induction init as [|f init IH]; intros st Hout Hfield.
  - change (writeRecord ([] ++ [last])) with (writeField last).
    rewrite app_nil_r, scan_writeField by assumption.
    unfold appendField. rewrite Hfield. reflexivity.
  - unfold writeRecord. simpl List.map.
    destruct (List.map writeField (init ++ [last])) as [|q qs] eqn:Hqs.
    { destruct init; discriminate. }
    rewrite joinWith_cons, <- Hqs, <- !app_assoc.
    change (joinWith [COMMA] (List.map writeField (init ++ [last])))
      with (writeRecord (init ++ [last])).
    rewrite scan_writeField by (assumption || reflexivity).
    simpl app. rewrite scan_cons. unfold step. simpl.
    rewrite IH by reflexivity. simpl.
    rewrite Hfield, <- app_assoc. reflexivity.
Qed.

(** A written field that is not empty never starts with a line feed. *)
Lemma head_writeField value rest :
  value <> [] -> isLF (head (writeField value ++ rest)) = false.
Proof.
  intros Hvalue. unfold writeField.
  destruct (needsQuoting value) eqn:Hq; [reflexivity|].
  destruct value as [|c value]; [congruence|].
  unfold needsQuoting in Hq. simpl in Hq.
  apply orb_false_iff in Hq as [Hc _]. unfold isSpecial in Hc.
  apply orb_false_iff in Hc as [_ Hlf]. exact Hlf.
Qed.

Lemma head_writeRecord row rest :
  existsb hasContent row = true ->
  isLF (head (writeRecord row ++ rest)) = false.
Proof.
  destruct row as [|f [|g row]]; [discriminate| |]; intros Hrow.
  - change (writeRecord [f]) with (writeField f).
    apply head_writeField. intros ->. simpl in Hrow.
    rewrite hasContent_nil in Hrow. discriminate.
  - unfold writeRecord. simpl List.map. rewrite joinWith_cons, <- app_assoc.
    destruct f as [|c f]; [reflexivity|].
    apply head_writeField. discriminate.
Qed.

Lemma head_lines lineBreak table rest :
  Forall (fun row => existsb hasContent row = true) table ->
  isLF (head rest) = false ->
  isLF (head (flat_map (fun r => writeRecord r ++ lineBreak) table ++ rest))
  = false.
Proof.
  intros Htable Hrest. destruct Htable as [|row rest0 Hrow _]; [exact Hrest|].
  simpl flat_map. rewrite <- !app_assoc. apply head_writeRecord, Hrow.
Qed.

(** Each of the three line breaks ends the row, once. *)
Lemma scan_lineBreak lineBreak rest st :
  isLineBreak lineBreak -> inQuotes st = false ->
  isLF (head rest) = false ->
  scan hasContent (lineBreak ++ rest) st
  = scan hasContent rest (endRow hasContent st).
Proof.
  intros [-> | [-> | ->]] Hout Hrest; simpl app; rewrite scan_cons;
    unfold step; rewrite Hout; simpl; try rewrite Hrest; reflexivity.
Qed.

Lemma scan_line lineBreak row rest done :
  isLineBreak lineBreak -> existsb hasContent row = true ->
  isLF (head rest) = false ->
  scan hasContent (writeRecord row ++ lineBreak ++ rest)
    {| rows := done; currentRow := []; currentField := [];
       inQuotes := false |}
  = scan hasContent rest
      {| rows := done ++ [row]; currentRow := []; currentField := [];
         inQuotes := false |}.
Proof.
  intros Hbreak Hrow Hrest.
  destruct (exists_last (l := row)) as (init & last & ->).
  { intros ->. discriminate. }
  pose proof (content_pending hasContent hasContent_nil init last Hrow)
    as Hpending.
  rewrite scan_writeRecord;
    [|reflexivity|reflexivity
     |destruct Hbreak as [-> | [-> | ->]]; reflexivity].
  rewrite scan_lineBreak by (assumption || reflexivity).
  unfold endRow, pending, pushRow. simpl. rewrite Hpending, Hrow.
  reflexivity.
Qed.

Lemma scan_lines lineBreak table rest done :
  isLineBreak lineBreak ->
  Forall (fun row => existsb hasContent row = true) table ->
  isLF (head rest) = false ->
  scan hasContent
    (flat_map (fun r => writeRecord r ++ lineBreak) table ++ rest)
    {| rows := done; currentRow := []; currentField := [];
       inQuotes := false |}
  = scan hasContent rest
      {| rows := done ++ table; currentRow := []; currentField := [];
         inQuotes := false |}.
Proof.
  intros Hbreak Htable Hrest. revert done.
  induction Htable as [|row table Hrow Htable IH]; intros done.
  - simpl. rewrite app_nil_r. reflexivity.
  - simpl flat_map. rewrite <- !app_assoc.
    rewrite scan_line
      by (assumption || apply head_lines; assumption).
    rewrite IH, <- app_assoc. reflexivity.
Qed.

Lemma parse_writeTable lineBreak table :
  isLineBreak lineBreak ->
  Forall (fun row => existsb hasContent row = true) table ->
  parseCSVTextWith hasContent (writeTable lineBreak table) = table
  /\ parseCSVTextWith hasContent (writeTable lineBreak table ++ lineBreak)
     = table.
Proof.
  intros Hbreak Htable. unfold parseCSVTextWith, initScanner.
  destruct (decide (table = [])) as [->|Hne].
  { split; [reflexivity|].
    change (writeTable lineBreak [] ++ lineBreak) with lineBreak.
    rewrite <- (app_nil_r lineBreak).
    rewrite scan_lineBreak by (assumption || reflexivity). reflexivity. }
  split.
  - destruct (exists_last Hne) as (init & row & ->).
    apply Forall_app in Htable as [Hinit Hrow].
    apply Forall_cons in Hrow as [Hrow _].
    rewrite writeTable_snoc.
    rewrite scan_lines;
      [|assumption|assumption
       |rewrite <- (app_nil_r (writeRecord row));
        apply head_writeRecord, Hrow].
    simpl app.
    destruct (exists_last (l := row)) as (fields & last & ->).
    { intros ->. discriminate. }
    rewrite <- (app_nil_r (writeRecord _)).
    rewrite scan_writeRecord by reflexivity. simpl.
    unfold flush, pending, pushRow. simpl.
    rewrite (content_pending hasContent hasContent_nil fields last Hrow).
    rewrite Hrow. reflexivity.
  - rewrite writeTable_lines by exact Hne.
    rewrite <- (app_nil_r (flat_map _ _)).
    rewrite scan_lines by (assumption || reflexivity). reflexivity.
Qed.
End WriteRoundTrip.

(** X9: a table written the way a spreadsheet exports it, a field quoted
    only when it holds a quote, a comma or a line break, and records
    separated by line feeds, by carriage returns or by both, is read back
    field for field by both revisions of the scanner, with or without a line
    break after the last record, as long as every record has a field with a
    code unit that is not white space. *)
Theorem parseCSVText_reads_written_table
    (lineBreak : jsstring) (table : list Row) :
  isLineBreak lineBreak -> Forall hasContentRow table ->
  parseCSVText (writeTable lineBreak table) = table
  /\ parseCSVText (writeTable lineBreak table ++ lineBreak) = table
  /\ Mejorada.parseCSVText (writeTable lineBreak table) = table
  /\ Mejorada.parseCSVText (writeTable lineBreak table ++ lineBreak) = table.
Proof.
  intros Hbreak Htable.
  destruct (parse_writeTable nonBlank eq_refl lineBreak table Hbreak) as [H1 H2].
  { eapply Forall_impl; [exact Htable|].
    intros row Hrow. simpl. rewrite existsb_nonBlank. exact Hrow. }
  destruct (parse_writeTable Mejorada.nonEmpty eq_refl lineBreak table Hbreak)
    as [H3 H4].
  { eapply Forall_impl; [exact Htable|].
    intros row Hrow. apply hasNonWhiteSpace_nonEmpty, Hrow. }
  exact (conj H1 (conj H2 (conj H3 H4))).
Qed.

Lemma parseCSVText_reads_written_table_witness :
  let table := [[js "Id"; js "Name"; js "Lat"; js "Lon"; js "Note"];
                [js "1"; js "Ajijic"; js "20,3"; js "-103.25";
                 js "lake, " ++ [QUOTE] ++ js "Chapala" ++ [QUOTE; LF]
                 ++ js "south shore"];
                [[]; js "Tequila"; []; []]] in
  writeTable [CR; LF] table
  = js "Id,Name,Lat,Lon,Note" ++ [CR; LF]
    ++ js "1,Ajijic," ++ [QUOTE] ++ js "20,3" ++ [QUOTE] ++ js ",-103.25,"
    ++ [QUOTE] ++ js "lake, " ++ [QUOTE; QUOTE] ++ js "Chapala"
    ++ [QUOTE; QUOTE; LF] ++ js "south shore" ++ [QUOTE; CR; LF]
    ++ js ",Tequila,,"
  /\ parseCSVText (writeTable [CR; LF] table) = table
  /\ parseCSVText (writeTable [CR; LF] table ++ [CR; LF]) = table
  /\ Mejorada.parseCSVText (writeTable [CR; LF] table) = table
  /\ Mejorada.parseCSVText (writeTable [CR; LF] table ++ [CR; LF]) = table.
Proof.
  intros table. split; [reflexivity|].
  apply (parseCSVText_reads_written_table [CR; LF] table).
  - right. right. reflexivity.
  - repeat constructor.
Defined.

(** ** The two revisions of the scanner *)

(** The revisions run in lockstep: same pending row, field and mode, the
    rows of the final one being those of the earlier one that [keepsRow]
    keeps. *)
Lemma pushRow_revisions st1 st2 :
  rows st1 = filter keepsRow (rows st2) ->
  currentRow st1 = currentRow st2 -> currentField st1 = currentField st2 ->
  pushRow nonBlank st1 = filter keepsRow (pushRow Mejorada.nonEmpty st2).
Proof.
  intros Hrows Hrow Hfield. unfold pushRow. rewrite <- Hrow, <- Hfield.
  set (finished := currentRow st1 ++ [currentField st1]).
  destruct (existsb nonBlank finished) eqn:Hkeep.
  - assert (Hne : existsb Mejorada.nonEmpty finished = true).
    { apply hasNonWhiteSpace_nonEmpty. rewrite <- existsb_nonBlank.
      exact Hkeep. }
    rewrite Hne, filter_app, <- Hrows.
    rewrite filter_cons_True by exact Hkeep. reflexivity.
  - assert (Hdrop : filter keepsRow [finished] = []).
    { rewrite filter_cons_False; [reflexivity|].
      unfold keepsRow. rewrite Hkeep. discriminate. }
    destruct (existsb Mejorada.nonEmpty finished); [|exact Hrows].
    rewrite filter_app, Hdrop, app_nil_r. exact Hrows.
Qed.

Lemma step_revisions c nextChar st1 st2 :
  rows st1 = filter keepsRow (rows st2) ->
  currentRow st1 = currentRow st2 -> currentField st1 = currentField st2 ->
  inQuotes st1 = inQuotes st2 ->
  let r1 := step nonBlank c nextChar st1 in
  let r2 := step Mejorada.nonEmpty c nextChar st2 in
  rows (fst r1) = filter keepsRow (rows (fst r2))
  /\ currentRow (fst r1) = currentRow (fst r2)
  /\ currentField (fst r1) = currentField (fst r2)
  /\ inQuotes (fst r1) = inQuotes (fst r2)
  /\ snd r1 = snd r2.
Proof.
  intros Hrows Hrow Hfield Hmode. unfold step.
  rewrite Hmode, Hrow, Hfield.
  destruct (c =? QUOTE)%N.
  { destruct (inQuotes st2 && isQuote nextChar); simpl; auto. }
  destruct ((c =? COMMA)%N && negb (inQuotes st2)); [simpl; auto|].
  destruct (((c =? LF)%N || (c =? CR)%N) && negb (inQuotes st2));
    [|simpl; auto].
  simpl. unfold endRow, pending. rewrite Hrow, Hfield.
  destruct (truthy (currentField st2) || (0 <? length (currentRow st2))%nat);
    simpl; [|auto].
  rewrite (pushRow_revisions st1 st2 Hrows Hrow Hfield). auto.
Qed.

Lemma scan_revisions text st1 st2 :
  rows st1 = filter keepsRow (rows st2) ->
  currentRow st1 = currentRow st2 -> currentField st1 = currentField st2 ->
  inQuotes st1 = inQuotes st2 ->
  let s1 := scan nonBlank text st1 in
  let s2 := scan Mejorada.nonEmpty text st2 in
  rows s1 = filter keepsRow (rows s2)
  /\ currentRow s1 = currentRow s2 /\ currentField s1 = currentField s2.
Proof.
  assert (H : forall n text st1 st2, (length text <= n)%nat ->
    rows st1 = filter keepsRow (rows st2) ->
    currentRow st1 = currentRow st2 -> currentField st1 = currentField st2 ->
    inQuotes st1 = inQuotes st2 ->
    rows (scan nonBlank text st1)
    = filter keepsRow (rows (scan Mejorada.nonEmpty text st2))
    /\ currentRow (scan nonBlank text st1)
       = currentRow (scan Mejorada.nonEmpty text st2)
    /\ currentField (scan nonBlank text st1)
       = currentField (scan Mejorada.nonEmpty text st2)).
  { clear. induction n as [|n IH]; intros text st1 st2 Hlen Hrows Hrow Hfield Hmode.
    - destruct text; [auto|simpl in Hlen; lia].
    - destruct text as [|c rest]; [auto|].
      rewrite !scan_cons.
      destruct (step_revisions c (head rest) st1 st2 Hrows Hrow Hfield Hmode)
        as (Hrows' & Hrow' & Hfield' & Hmode' & Hskip).
      rewrite Hskip. apply IH; try assumption.
      simpl in Hlen. clear -Hlen.
      destruct (snd _); [destruct rest; simpl in *; lia|lia]. }
  intros. apply (H (length text)); auto.
Qed.

(** X10: on every input, the rows of the final revision of [parseCSVText]
    are the rows of the earlier revision without those whose fields are all
    white space, in the same order. *)
Theorem parseCSVText_revisions (csvText : jsstring) :
  parseCSVText csvText = filter keepsRow (Mejorada.parseCSVText csvText).
Proof.
  unfold parseCSVText, Mejorada.parseCSVText, parseCSVTextWith.
  destruct (scan_revisions csvText initScanner initScanner
              eq_refl eq_refl eq_refl eq_refl) as (Hrows & Hrow & Hfield).
  unfold flush, pending. rewrite Hrow, Hfield.
  destruct (truthy _ || _); [|exact Hrows].
  apply pushRow_revisions; assumption.
Qed.

(** ** From the exported text to the dataset *)

Lemma hasContentRow_nonBlank table :
  Forall hasContentRow table ->
  Forall (fun row => existsb nonBlank row = true) table.
Proof.
  intros Htable. eapply Forall_impl; [exact Htable|].
  intros row Hrow. simpl. rewrite existsb_nonBlank. exact Hrow.
Qed.

Lemma hasContentRow_nonEmpty table :
  Forall hasContentRow table ->
  Forall (fun row => existsb Mejorada.nonEmpty row = true) table.
Proof.
  intros Htable. eapply Forall_impl; [exact Htable|].
  intros row Hrow. apply hasNonWhiteSpace_nonEmpty, Hrow.
Qed.

(** X11: for an export with a header and data rows that all have content,
    the dataset is what the row loop makes of the data rows, in order: the
    header cells are never consulted, the kind of line break and the quoting
    leave no trace, and both revisions agree. *)
Theorem parseCSVData_of_written_table
    (lineBreak : jsstring) (header : Row) (dataRows : list Row) :
  isLineBreak lineBreak -> hasContentRow header ->
  Forall hasContentRow dataRows ->
  parseCSVData (writeTable lineBreak (header :: dataRows))
  = omap processRow dataRows
  /\ MejoradaPage.parseCSVData (writeTable lineBreak (header :: dataRows))
     = omap processRow dataRows.
Proof.
  intros Hbreak Hheader Hrows.
  assert (Htable : Forall hasContentRow (header :: dataRows))
    by (constructor; assumption).
  split.
  - rewrite parseCSVData_omap. unfold parseCSVText.
    rewrite (proj1 (parse_writeTable nonBlank eq_refl lineBreak _ Hbreak
                      (hasContentRow_nonBlank _ Htable))).
    reflexivity.
  - unfold MejoradaPage.parseCSVData, Mejorada.parseCSVText.
    rewrite (proj1 (parse_writeTable Mejorada.nonEmpty eq_refl lineBreak _
                      Hbreak (hasContentRow_nonEmpty _ Htable))).
    destruct dataRows; reflexivity.
Qed.

Lemma parseCSVData_of_written_table_witness :
  let header := [js "Id"; js "Pueblo, municipio"; js "Lat"; js "Lon"] in
  let ajijic := [js "1"; js " Ajijic "; js "20,3"; js "-103.25"] in
  let blankName := [js "2"; []; js "20.9"; js "-103.8"] in
  parseCSVData (writeTable [CR] [header; ajijic; blankName])
  = omap processRow [ajijic; blankName]
  /\ MejoradaPage.parseCSVData (writeTable [CR] [header; ajijic; blankName])
     = omap processRow [ajijic; blankName].
Proof.
  intros header ajijic blankName.
  apply (parseCSVData_of_written_table [CR] header [ajijic; blankName]).
  - right. left. reflexivity.
  - reflexivity.
  - repeat constructor.
Defined.

(** ** What an accepted snapshot holds *)

(** X12: when no town of the fetched dataset is called [__proto__], the
    snapshot an accepted cycle publishes is a plain mapping: its prototype is
    untouched, its keys are the names of the dataset, and each name maps to
    the last record bearing it. *)
Theorem accepted_snapshot_maps_names
    (manual : bool) (status : Z) (csvText : jsstring) (st : State) :
  idle st ->
  Some (fingerprint (parseCSVData csvText)) <> lastDataHash st
  \/ manual = true ->
  Forall (fun pueblo => nombre pueblo <> protoKey) (parseCSVData csvText) ->
  exists obj,
    snapshot (updateData manual (Response true status (Some csvText)) st)
    = Some obj
    /\ proto obj = None
    /\ ObjectKeys obj = list_to_set (nombre <$> parseCSVData csvText)
    /\ forall name, own obj !! name = lastNamed name (parseCSVData csvText).
Proof.
  intros Hidle Hacc Hnames.
  destruct (updateData_accepted manual status csvText st Hidle Hacc)
    as (_ & Hsnap & _).
  exists (storeAll (parseCSVData csvText) emptyObject).
  split; [exact Hsnap|].
  destruct (storeAll_spec _ emptyObject Hnames) as (Hproto & _).
  destruct (snapshot_last_writer_wins _ Hnames) as [Hkeys Hown].
  exact (conj Hproto (conj Hkeys Hown)).
Qed.

Lemma accepted_snapshot_maps_names_witness :
  let csvText := js "Id,Name,Lat,Lon" ++ [LF] ++ js "1,Ajijic,20.3,-103.25"
                 ++ [LF] ++ js "2,Ajijic,20.9,-103.8" in
  exists obj,
    snapshot (updateData false (Response true 200 (Some csvText)) initialState)
    = Some obj
    /\ proto obj = None
    /\ ObjectKeys obj = list_to_set (nombre <$> parseCSVData csvText)
    /\ forall name, own obj !! name = lastNamed name (parseCSVData csvText).
Proof.
  intros csvText.
  apply (accepted_snapshot_maps_names false 200 csvText initialState).
  - split; reflexivity.
  - left. discriminate.
  - apply (bool_decide_unpack _). vm_compute. reflexivity.
Defined.

(** ** The first load of the earlier revision *)

(** X13: [loadTurismoData] of the earlier revision writes into the object
    [turismoDatos] already refers to: the reference, the retained fingerprint
    and the status stay as they are; when the fetch throws, nothing changes
    at all; otherwise the towns are merged into the object in place, so the
    names it had are all still keys, and a name absent from the load keeps
    its record. *)
Theorem loadTurismoData_merges_in_place
    (r : FetchOutcome) (st : State) (obj : JSObject) :
  snapshot st = Some obj ->
  let st' := MejoradaPage.loadTurismoData r st in
  turismoDatos st' = turismoDatos st
  /\ lastDataHash st' = lastDataHash st
  /\ statusLog st' = statusLog st
  /\ match MejoradaPage.fetchDataFromGoogleSheets r with
     | inl error => st' = st
     | inr data =>
         heap st' = <[turismoDatos st := storeAll data obj]> (heap st)
         /\ markerUpdates st' = S (markerUpdates st)
         /\ (Forall (fun pueblo => nombre pueblo <> protoKey) data ->
             ObjectKeys obj ⊆ ObjectKeys (storeAll data obj)
             /\ forall name, lastNamed name data = None ->
                  own (storeAll data obj) !! name = own obj !! name)
     end.
Proof.
  intros Hsnap st'. subst st'. unfold MejoradaPage.loadTurismoData.
  destruct (MejoradaPage.fetchDataFromGoogleSheets r) as [error|data];
    [auto|].
  destruct (fold_storePueblo_frame data st) as (_ & Hl & Ht & Hs & Hm & _).
  simpl. rewrite Ht, Hl, Hs, Hm, fold_storePueblo_heap.
  do 3 (split; [reflexivity|]). split; [|split; [reflexivity|]].
  - apply map_eq. intros l. unfold snapshot in Hsnap.
    destruct (decide (turismoDatos st = l)) as [<-|Hne].
    + rewrite lookup_alter_eq, lookup_insert_eq, Hsnap. reflexivity.
    + rewrite lookup_alter_ne, lookup_insert_ne by exact Hne. reflexivity.
  - intros Hnames.
    destruct (storeAll_spec data obj Hnames) as (_ & Hkeys & Hown).
    split.
    + rewrite Hkeys. apply union_subseteq_r.
    + intros name Hname. rewrite Hown, Hname. reflexivity.
Qed.

Lemma loadTurismoData_merges_in_place_witness :
  let first := js "Id,Name,Lat,Lon" ++ [LF] ++ js "1,Ajijic,20.3,-103.25" in
  let second := js "Id,Name,Lat,Lon" ++ [LF] ++ js "2,Tequila,20.9,-103.8" in
  let st := MejoradaPage.loadTurismoData (Response true 200 (Some first))
              initialState in
  let st' := MejoradaPage.loadTurismoData (Response true 200 (Some second))
               st in
  turismoDatos st' = turismoDatos initialState
  /\ lastDataHash st' = None
  /\ (exists obj', snapshot st' = Some obj'
                   /\ ObjectKeys obj' = {[js "Ajijic"; js "Tequila"]}).
Proof.
  intros first second st st'.
  assert (Hsnap : snapshot st
                  = Some (storeAll (MejoradaPage.parseCSVData first)
                            emptyObject))
    by (vm_compute; reflexivity).
  destruct (loadTurismoData_merges_in_place
              (Response true 200 (Some second)) st _ Hsnap)
    as (Ht & Hl & _ & Hheap & _).
  split; [exact Ht|]. split; [exact Hl|].
  eexists. split.
  - unfold snapshot. subst st'. rewrite Ht, Hheap. apply lookup_insert_eq.
  - vm_compute. reflexivity.
Defined.

(** ** The shape of a record *)

Lemma head_rev {A} (l : list A) : head (rev l) = last l.
Proof. rewrite rev_alt. apply head_reverse. Qed.

Lemma last_rev {A} (l : list A) : last (rev l) = head l.
Proof. rewrite rev_alt. apply last_reverse. Qed.

Lemma trimStart_head s c :
  head (trimStart s) = Some c -> isWhiteSpace c = false.
Proof.
  induction s as [|a s IH]; simpl; [discriminate|].
  destruct (isWhiteSpace a) eqn:Ha; [exact IH|].
  simpl. intros [= <-]. exact Ha.
Qed.

Lemma trimStart_last s : trimStart s = [] \/ last (trimStart s) = last s.
Proof.
  induction s as [|a s IH]; [left; reflexivity|]. simpl.
  destruct (isWhiteSpace a); [|right; reflexivity].
  destruct IH as [Hnil|IH]; [left; exact Hnil|].
  destruct s as [|b s]; [left; reflexivity|].
  right. rewrite IH. symmetry. apply last_cons_cons.
Qed.

Lemma trim_trimmed s : trimmed (trim s).
Proof.
  unfold trimmed, trim, trimEnd. split; intros c Hc.
  - rewrite head_rev in Hc.
    destruct (trimStart_last (rev (trimStart s))) as [Hnil|Hlast].
    + rewrite Hnil in Hc. discriminate.
    + rewrite Hlast, last_rev in Hc. exact (trimStart_head s c Hc).
  - rewrite last_rev in Hc. exact (trimStart_head _ c Hc).
Qed.

Lemma cell_trimmed index row : trimmed (cell index row).
Proof.
  unfold cell. destruct (row !! index); [apply trim_trimmed|].
  split; intros c [=].
Qed.

Lemma orDefault_normalised s dflt :
  trimmed s -> dflt <> [] /\ trimmed dflt ->
  orDefault s dflt <> [] /\ trimmed (orDefault s dflt).
Proof.
  intros Hs Hd. unfold orDefault.
  destruct s; [exact Hd|]. split; [discriminate|exact Hs].
Qed.

Lemma processRow_textFields row record :
  processRow row = Some record ->
  Forall (fun s => s <> [] /\ trimmed s) (textFields record).
Proof.
  unfold processRow.
  destruct (truthy (cell nombreIndex row)) eqn:Hn; simpl; [|discriminate].
  destruct (truthy (cell latitudIndex row)); simpl; [|discriminate].
  destruct (truthy (cell longitudIndex row)); simpl; [|discriminate].
  destruct (isNaN _ || isNaN _); [discriminate|].
  intros [= <-]. unfold textFields. simpl.
  assert (Hdflt : forall d, d <> [] /\ trimmed d ->
                  forall i, orDefault (cell i row) d <> []
                            /\ trimmed (orDefault (cell i row) d)).
  { intros d Hd i. apply orDefault_normalised; [apply cell_trimmed|exact Hd]. }
  assert (Hclosed : forall c t l,
            isWhiteSpace c = false -> last (c :: t) = Some l ->
            isWhiteSpace l = false ->
            (c :: t) <> [] /\ trimmed (c :: t)).
  { intros c t l Hc Hl Hl'. split; [discriminate|].
    split; intros x Hx; [simpl in Hx|rewrite Hl in Hx]; congruence. }
  apply Forall_cons. split.
  { split; [|apply cell_trimmed].
    intros Hnil. rewrite Hnil in Hn. discriminate. }
  repeat (apply Forall_cons; split;
          [apply Hdflt; eapply Hclosed; reflexivity|]).
  apply Forall_nil. exact I.
Qed.

(** X14: in every record of a dataset, of either revision, each of the six
    text fields is a non-empty string without white space at either end:
    the name because the row would have been skipped, the others because an
    empty cell is replaced by its default. *)
Theorem records_are_normalised (csvText : jsstring) (record : Pueblo) :
  record ∈ parseCSVData csvText
  \/ record ∈ MejoradaPage.parseCSVData csvText ->
  Forall (fun s => s <> [] /\ trimmed s) (textFields record).
Proof.
  assert (Hrows : forall rs : list Row, record ∈ omap processRow rs ->
            Forall (fun s => s <> [] /\ trimmed s) (textFields record)).
  { intros rs Hin. apply list_elem_of_omap in Hin as (row & _ & Hrow).
    exact (processRow_textFields row record Hrow). }
  intros [Hin|Hin].
  - rewrite parseCSVData_omap in Hin. exact (Hrows _ Hin).
  - unfold MejoradaPage.parseCSVData in Hin.
    destruct (length _ <? 2)%nat; [|exact (Hrows _ Hin)].
    apply elem_of_nil in Hin. destruct Hin.
Qed.

Lemma records_are_normalised_witness :
  let csvText := js "Id,Name,Lat,Lon,Seg,Dist" ++ [LF]
                 ++ js "1,  Ajijic ,20.3,-103.25,   , 50 km " in
  let record := {| nombre := js "Ajijic";
                   latitud := decimalValue false 203 (-1);
                   longitud := decimalValue true 10325 (-2);
                   seguridad := informacionNoDisponible;
                   securityTips := js "Information not available";
                   distancia := js "50 km";
                   ruta := js "#";
                   linkTurismo := js "#" |} in
  parseCSVData csvText = [record]
  /\ Forall (fun s => s <> [] /\ trimmed s) (textFields record).
Proof.
  intros csvText record.
  assert (Hdata : parseCSVData csvText = [record]) by (vm_compute; reflexivity).
  split; [exact Hdata|].
  apply (records_are_normalised csvText record).
  left. rewrite Hdata. constructor.
Defined.

(** ** The infographic of a town *)

Lemma loadInfografia_oneDisplayed nombrePueblo idioma view :
  oneDisplayed (loadInfografia nombrePueblo idioma view).
Proof.
  unfold loadInfografia, oneDisplayed.
  destruct (bool_decide _); simpl; auto.
Qed.

Lemma handleInfografia_oneDisplayed view ev :
  oneDisplayed view -> oneDisplayed (handleInfografia view ev).
Proof.
  intros Hview. destruct ev as [nombrePueblo idioma|]; simpl.
  - apply loadInfografia_oneDisplayed.
  - unfold infografiaError.
    destruct (imgOnerror view); [|exact Hview]. right. split; reflexivity.
Qed.

(** X15: from the first call of [loadInfografia] on, whatever towns are shown
    and whenever the image fails to load, exactly one of the image and the
    placeholder is displayed; the call displays the image exactly for the
    twelve listed towns, with the file named after the town and the language,
    and a failure to load that image brings the placeholder back. *)
Theorem infografia_or_placeholder
    (nombrePueblo idioma : jsstring) (evs : list InfografiaEvent)
    (view : InfografiaView) :
  oneDisplayed (runInfografia (ShowPueblo nombrePueblo idioma :: evs) view)
  /\ (imgDisplay (loadInfografia nombrePueblo idioma view) = js "block"
      <-> nombrePueblo ∈ pueblosConInfografias)
  /\ (nombrePueblo ∈ pueblosConInfografias ->
      imgSrc (loadInfografia nombrePueblo idioma view)
      = nombreArchivo nombrePueblo idioma
      /\ placeholderDisplay
           (infografiaError (loadInfografia nombrePueblo idioma view))
         = js "flex"
      /\ imgDisplay
           (infografiaError (loadInfografia nombrePueblo idioma view))
         = js "none").
Proof.
  split; [|split].
  - simpl.
    generalize (loadInfografia_oneDisplayed nombrePueblo idioma view).
    generalize (loadInfografia nombrePueblo idioma view).
    induction evs as [|ev evs IH]; intros v Hv; [exact Hv|].
    simpl. apply IH, handleInfografia_oneDisplayed, Hv.
  - unfold loadInfografia.
    destruct (bool_decide_reflect (nombrePueblo ∈ pueblosConInfografias))
      as [Hin|Hout]; simpl.
    + split; [intros _; exact Hin|intros _; reflexivity].
    + split; [discriminate|intros Hin; destruct (Hout Hin)].
  - intros Hin. unfold loadInfografia.
    rewrite bool_decide_eq_true_2 by exact Hin. repeat split.
Qed.

Lemma infografia_or_placeholder_witness :
  let view := {| imgSrc := []; imgDisplay := []; imgOnerror := false;
                 placeholderDisplay := [] |} in
  let tequila := loadInfografia (js "Tequila") (js "en") view in
  oneDisplayed (runInfografia [ShowPueblo (js "Tequila") (js "en"); ImgError;
                               ShowPueblo (js "Guadalajara") (js "es");
                               ImgError] view)
  /\ imgDisplay tequila = js "block"
  /\ imgSrc tequila = js "Infografia_Seguridad_Tequila_English.png"
  /\ placeholderDisplay (infografiaError tequila) = js "flex"
  /\ imgDisplay (infografiaError tequila) = js "none".
Proof.
  intros view tequila.
  assert (Hin : js "Tequila" ∈ pueblosConInfografias).
  { apply (bool_decide_unpack _). vm_compute. reflexivity. }
  destruct (infografia_or_placeholder (js "Tequila") (js "en")
              [ImgError; ShowPueblo (js "Guadalajara") (js "es"); ImgError]
              view) as (Hone & Hshown & Hlisted).
  destruct (Hlisted Hin) as (Hsrc & Hflex & Hnone).
  exact (conj Hone (conj (proj2 Hshown Hin) (conj Hsrc (conj Hflex Hnone)))).
Defined.

(** ** The highlight of the municipalities *)

Lemma styleOf_setStyle layer style view l :
  styleOf (setStyle layer style view) l
  = if decide (layer = l) then style else styleOf view l.
Proof.
  unfold styleOf, setStyle. simpl.
  destruct (decide (layer = l)) as [->|Hne].
  - rewrite lookup_insert_eq. reflexivity.
  - rewrite lookup_insert_ne by exact Hne. reflexivity.
Qed.

Lemma handleMap_active view ev :
  (forall l, styleOf view l = stylesActive ->
             currentActiveFeature view = Some l) ->
  forall l, styleOf (handleMap view ev) l = stylesActive ->
            currentActiveFeature (handleMap view ev) = Some l.
Proof.
  intros Hinv l. destruct ev as [layer|layer|layer| |]; simpl.
  - unfold onMouseover. rewrite styleOf_setStyle.
    destruct (decide (layer = l)); [discriminate|apply Hinv].
  - unfold onMouseout.
    destruct (bool_decide (currentActiveFeature view = Some layer));
      [apply Hinv|].
    rewrite styleOf_setStyle.
    destruct (decide (layer = l)); [discriminate|apply Hinv].
  - unfold onClick, showModal. simpl.
    change (styleOf _ l) with
      (styleOf (setStyle layer stylesActive
                  match currentActiveFeature view with
                  | Some active =>
                      if bool_decide (active = layer) then view
                      else setStyle active stylesDefault view
                  | None => view
                  end) l).
    rewrite styleOf_setStyle.
    destruct (decide (layer = l)) as [->|Hne]; [reflexivity|].
    intros Hl. exfalso. apply Hne.
    destruct (currentActiveFeature view) as [active|] eqn:Hactive.
    + destruct (bool_decide_reflect (active = layer)) as [->|Hother].
      * apply Hinv in Hl. congruence.
      * rewrite styleOf_setStyle in Hl.
        destruct (decide (active = l)); [discriminate|].
        apply Hinv in Hl. congruence.
    + apply Hinv in Hl. congruence.
  - apply Hinv.
  - unfold closeModal. simpl.
    destruct (currentActiveFeature view) as [active|] eqn:Hactive; simpl.
    + change (styleOf _ l) with
        (styleOf (setStyle active stylesDefault view) l).
      rewrite styleOf_setStyle.
      destruct (decide (active = l)); [discriminate|].
      intros Hl. apply Hinv in Hl. congruence.
    + intros Hl. apply Hinv in Hl. congruence.
Qed.

Lemma runMap_active evs view :
  (forall l, styleOf view l = stylesActive ->
             currentActiveFeature view = Some l) ->
  forall l, styleOf (runMap evs view) l = stylesActive ->
            currentActiveFeature (runMap evs view) = Some l.
Proof.
  revert view. induction evs as [|ev evs IH]; intros view Hinv; [exact Hinv|].
  simpl. apply IH, handleMap_active, Hinv.
Qed.

(** X16: whatever the user does on the map, a municipality drawn in the
    active style is the selected one, so at most one is; closing the modal
    leaves none selected and none in the active style; and moving the
    pointer over the selected municipality and away leaves it in the hover
    style, still selected. *)
Theorem only_the_selected_layer_is_active
    (evs : list MapEvent) (layer : nat) :
  let view := runMap evs initialMapView in
  (styleOf view layer = stylesActive ->
   currentActiveFeature view = Some layer)
  /\ (currentActiveFeature (closeModal view) = None
      /\ styleOf (closeModal view) layer <> stylesActive
      /\ modalDisplay (closeModal view) = js "none")
  /\ (currentActiveFeature view = Some layer ->
      styleOf (onMouseout layer (onMouseover layer view)) layer = stylesHover
      /\ currentActiveFeature (onMouseout layer (onMouseover layer view))
         = Some layer).
Proof.
  intros view.
  assert (Hinit : forall l, styleOf initialMapView l = stylesActive ->
                            currentActiveFeature initialMapView = Some l).
  { intros l. unfold styleOf. simpl. rewrite lookup_empty. discriminate. }
  pose proof (runMap_active evs initialMapView Hinit) as Hinv.
  fold view in Hinv.
  split; [apply Hinv|]. split.
  - pose proof (handleMap_active view CloseModal Hinv layer) as Hclosed.
    simpl in Hclosed.
    assert (Hnone : currentActiveFeature (closeModal view) = None).
    { unfold closeModal. simpl.
      destruct (currentActiveFeature view); reflexivity. }
    split; [exact Hnone|]. split.
    + intros Hactive. apply Hclosed in Hactive. congruence.
    + unfold closeModal. simpl.
      destruct (currentActiveFeature view); reflexivity.
  - intros Hselected. unfold onMouseout, onMouseover. simpl.
    rewrite Hselected, bool_decide_eq_true_2 by reflexivity.
    rewrite styleOf_setStyle.
    destruct (decide (layer = layer)); [|congruence].
    split; [reflexivity|exact Hselected].
Qed.

Lemma only_the_selected_layer_is_active_witness :
  let view := runMap [ClickLayer 3; Mouseover 5; ClickLayer 5; Mouseout 3;
                      ClickMarker] initialMapView in
  currentActiveFeature view = Some 5%nat
  /\ styleOf view 3%nat = stylesDefault
  /\ styleOf (onMouseout 5 (onMouseover 5 view)) 5%nat = stylesHover
  /\ currentActiveFeature (closeModal view) = None.
Proof.
  intros view.
  destruct (only_the_selected_layer_is_active
              [ClickLayer 3; Mouseover 5; ClickLayer 5; Mouseout 3;
               ClickMarker] 5%nat) as (Hactive & (Hnone & _) & Hhover).
  assert (Hstyle : styleOf view 5%nat = stylesActive)
    by (vm_compute; reflexivity).
  pose proof (Hactive Hstyle) as Hselected.
  split; [exact Hselected|].
  split; [vm_compute; reflexivity|].
  split; [exact (proj1 (Hhover Hselected))|exact Hnone].
Defined.

(** ** The decimal comma *)

Lemma trimStart_app_cons a c b :
  isWhiteSpace c = false -> trimStart (a ++ c :: b) = trimStart a ++ c :: b.
Proof.
  intros Hc. induction a as [|x a IH]; simpl.
  - rewrite Hc. reflexivity.
  - destruct (isWhiteSpace x); [exact IH|reflexivity].
Qed.

(** Trimming stops at a character that is not white space. *)
Lemma trim_app_cons a c b :
  isWhiteSpace c = false ->
  trim (a ++ c :: b) = trimStart a ++ c :: trimEnd b.
Proof.
  intros Hc. unfold trim. rewrite (trimStart_app_cons a c b Hc).
  unfold trimEnd. rewrite rev_app_distr. simpl rev. rewrite <- app_assoc.
  simpl app. rewrite (trimStart_app_cons (rev b) c _ Hc).
  rewrite rev_app_distr. simpl rev. rewrite rev_involutive, <- app_assoc.
  reflexivity.
Qed.

Lemma trimStart_Forall (P : N -> Prop) s : Forall P s -> Forall P (trimStart s).
Proof.
  induction 1 as [|c s Hc Hs IH]; simpl; [constructor|].
  destruct (isWhiteSpace c); [exact IH|]. constructor; assumption.
Qed.

Lemma trimEnd_Forall (P : N -> Prop) s : Forall P s -> Forall P (trimEnd s).
Proof.
  intros Hs. unfold trimEnd.
  apply Forall_forall. intros c Hc.
  apply list_elem_of_In, in_rev, list_elem_of_In in Hc.
  assert (Hrev : Forall P (rev s)).
  { apply Forall_forall. intros x Hx.
    apply list_elem_of_In, in_rev, list_elem_of_In in Hx.
    exact (proj1 (Forall_forall P s) Hs x Hx). }
  exact (proj1 (Forall_forall P _) (trimStart_Forall P _ Hrev) c Hc).
Qed.

Lemma replaceFirst_absent a b s :
  Forall (fun c => c <> a) s -> replaceFirst a b s = s.
Proof.
  induction 1 as [|c s Hc Hs IH]; [reflexivity|]. simpl.
  apply N.eqb_neq in Hc. rewrite Hc, IH. reflexivity.
Qed.

Lemma replaceFirst_first a b s rest :
  Forall (fun c => c <> a) s ->
  replaceFirst a b (s ++ a :: rest) = s ++ b :: rest.
Proof.
  induction 1 as [|c s Hc Hs IH]; simpl.
  - rewrite N.eqb_refl. reflexivity.
  - apply N.eqb_neq in Hc. rewrite Hc, IH. reflexivity.
Qed.

(** The row loop reads a row through its cells only. *)
Lemma processRow_cells row1 row2 :
  cell nombreIndex row1 = cell nombreIndex row2 ->
  truthy (cell latitudIndex row1) = truthy (cell latitudIndex row2) ->
  truthy (cell longitudIndex row1) = truthy (cell longitudIndex row2) ->
  latitudOf row1 = latitudOf row2 -> longitudOf row1 = longitudOf row2 ->
  cell seguridadIndex row1 = cell seguridadIndex row2 ->
  cell distanciaIndex row1 = cell distanciaIndex row2 ->
  cell rutaIndex row1 = cell rutaIndex row2 ->
  cell linkTurismoIndex row1 = cell linkTurismoIndex row2 ->
  cell securityTipsIndex row1 = cell securityTipsIndex row2 ->
  processRow row1 = processRow row2.
Proof.
  unfold processRow, latitudOf, longitudOf.
  intros Hn Hlat Hlon Hlatv Hlonv Hs Hd Hr Hl Ht.
  rewrite Hn, Hlat, Hlon, Hlatv, Hlonv, Hs, Hd, Hr, Hl, Ht. reflexivity.
Qed.

Lemma cell_insert_ne i j value row :
  i <> j -> cell j (<[i := value]> row) = cell j row.
Proof.
  intros Hne. unfold cell. rewrite list_lookup_insert_ne by exact Hne.
  reflexivity.
Qed.

Lemma cell_insert_eq i value row :
  (i < length row)%nat -> cell i (<[i := value]> row) = trim value.
Proof.
  intros Hi. unfold cell. rewrite list_lookup_insert_eq by exact Hi.
  reflexivity.
Qed.

(** X17: a coordinate written with a decimal comma is read as the same
    coordinate written with a decimal point: the two rows give the same
    record, or are both skipped. *)
Theorem decimal_comma_reads_as_point
    (row : Row) (index : nat) (whole fraction : jsstring) :
  index = latitudIndex \/ index = longitudIndex ->
  Forall (fun c => c <> COMMA) (whole ++ fraction) ->
  processRow (<[index := whole ++ COMMA :: fraction]> row)
  = processRow (<[index := whole ++ DOT :: fraction]> row).
Proof.
  intros Hindex Hplain.
  destruct (Nat.le_gt_cases (length row) index) as [Hshort|Hlong].
  { rewrite !list_insert_ge by exact Hshort. reflexivity. }
  apply Forall_app in Hplain as [Hwhole Hfraction].
  pose proof (trimStart_Forall _ _ Hwhole) as Hwhole'.
  pose proof (trimEnd_Forall _ _ Hfraction) as Hfraction'.
  assert (Hcomma : trim (whole ++ COMMA :: fraction)
                   = trimStart whole ++ COMMA :: trimEnd fraction)
    by (apply trim_app_cons; reflexivity).
  assert (Hdot : trim (whole ++ DOT :: fraction)
                 = trimStart whole ++ DOT :: trimEnd fraction)
    by (apply trim_app_cons; reflexivity).
  assert (Htruthy : truthy (trim (whole ++ COMMA :: fraction))
                    = truthy (trim (whole ++ DOT :: fraction))).
  { rewrite Hcomma, Hdot. destruct (trimStart whole); reflexivity. }
  assert (Hvalue :
    replaceFirst COMMA DOT (trim (whole ++ COMMA :: fraction))
    = replaceFirst COMMA DOT (trim (whole ++ DOT :: fraction))).
  { rewrite Hcomma, Hdot, (replaceFirst_first _ _ _ _ Hwhole').
    symmetry. apply replaceFirst_absent.
    apply Forall_app. split; [exact Hwhole'|].
    constructor; [discriminate|exact Hfraction']. }
  destruct Hindex as [-> | ->]; apply processRow_cells;
    unfold latitudOf, longitudOf;
    rewrite ?cell_insert_eq by exact Hlong;
    rewrite ?cell_insert_ne by discriminate;
    rewrite ?Hvalue; auto.
Qed.

Lemma decimal_comma_reads_as_point_witness :
  processRow [js "1"; js "Ajijic"; js " 20,3 "; js "-103.25"]
  = processRow [js "1"; js "Ajijic"; js " 20.3 "; js "-103.25"].
Proof.
  apply (decimal_comma_reads_as_point
           [js "1"; js "Ajijic"; []; js "-103.25"] latitudIndex
           (js " 20") (js "3 ")).
  - left. reflexivity.
  - repeat constructor; discriminate.
Defined.

(** ** Text without quotes *)

Section PlainFields.
Variable hasContent : jsstring -> bool.

Lemma pushRow_plain st :
  plainScanner st -> Forall (Forall plainField) (pushRow hasContent st).
Proof.
  intros (_ & Hfield & Hrow & Hrows). unfold pushRow.
  destruct (existsb hasContent _); [|exact Hrows].
  apply Forall_app. split; [exact Hrows|].
  constructor; [|constructor].
  apply Forall_app. split; [exact Hrow|]. constructor; [exact Hfield|constructor].
Qed.

Lemma step_plainScanner c nextChar st :
  c <> QUOTE -> plainScanner st ->
  plainScanner (fst (step hasContent c nextChar st)).
Proof.
  intros Hq Hst. pose proof Hst as (Hout & Hfield & Hrow & Hrows).
  unfold step. apply N.eqb_neq in Hq. rewrite Hq, Hout. simpl.
  rewrite !andb_true_r.
  destruct (c =? COMMA)%N eqn:Hcomma; simpl.
  { split; [reflexivity|]. split; [reflexivity|]. split; [|exact Hrows].
    apply Forall_app. split; [exact Hrow|].
    constructor; [exact Hfield|constructor]. }
  destruct ((c =? LF)%N || (c =? CR)%N) eqn:Hbreak; simpl.
  { unfold endRow. destruct (pending st); [|exact Hst].
    split; [exact Hout|]. split; [reflexivity|]. split; [constructor|].
    apply pushRow_plain, Hst. }
  split; [reflexivity|]. split; [|split; assumption].
  unfold plainField, needsQuoting in *. simpl.
  rewrite existsb_app, Hfield. simpl.
  apply orb_false_iff in Hbreak as [Hlf Hcr].
  unfold isSpecial. rewrite Hq, Hcomma, Hlf, Hcr. reflexivity.
Qed.

Lemma parse_plain csvText :
  Forall (fun c => c <> QUOTE) csvText ->
  Forall (Forall plainField) (parseCSVTextWith hasContent csvText).
Proof.
  intros Htext. unfold parseCSVTextWith.
  assert (Hscan : plainScanner (scan hasContent csvText initScanner)).
  { apply (scan_invariant hasContent (fun c => c <> QUOTE) plainScanner).
    - intros c nextChar st. apply step_plainScanner.
    - exact Htext.
    - repeat split; constructor. }
  unfold flush. destruct (pending _); [apply pushRow_plain, Hscan|].
  apply Hscan.
Qed.
End PlainFields.

(** X18: in a text without a quote character nothing is ever read in quoted
    mode, so no field of no row, in either revision, holds a comma or a line
    break: every comma separated two fields and every line break ended a
    row. *)
Theorem unquoted_text_gives_plain_fields (csvText : jsstring) :
  Forall (fun c => c <> QUOTE) csvText ->
  Forall (Forall plainField) (parseCSVText csvText)
  /\ Forall (Forall plainField) (Mejorada.parseCSVText csvText).
Proof.
  intros Htext. split; apply parse_plain, Htext.
Qed.

Lemma unquoted_text_gives_plain_fields_witness :
  let csvText := js "Id,Name" ++ [CR; LF] ++ js "1,Ajijic" ++ [LF; LF]
                 ++ js " ,x" ++ [CR] in
  Forall (Forall plainField) (parseCSVText csvText)
  /\ Forall (Forall plainField) (Mejorada.parseCSVText csvText).
Proof.
  intros csvText.
  apply (unquoted_text_gives_plain_fields csvText).
  repeat constructor; discriminate.
Defined.

(** ** The same data in another layout *)

Lemma parseCSVData_written lineBreak header dataRows :
  isLineBreak lineBreak -> hasContentRow header ->
  Forall hasContentRow dataRows ->
  parseCSVData (writeTable lineBreak (header :: dataRows))
  = omap processRow dataRows
  /\ parseCSVData (writeTable lineBreak (header :: dataRows) ++ lineBreak)
     = omap processRow dataRows.
Proof.
  intros Hbreak Hheader Hrows.
  assert (Htable : Forall hasContentRow (header :: dataRows))
    by (constructor; assumption).
  destruct (parse_writeTable nonBlank eq_refl lineBreak _ Hbreak
              (hasContentRow_nonBlank _ Htable)) as [H1 H2].
  rewrite !parseCSVData_omap. unfold parseCSVText. rewrite H1, H2.
  split; reflexivity.
Qed.

(** X19: the comparison is on the dataset, not on the text.  After a cycle
    that fetched an export, a timer cycle that fetches the same data rows
    under another header, with another line break and a final line break,
    reports [Sin cambios] and leaves the snapshot as it is. *)
Theorem another_layout_is_no_change
    (manual : bool) (status1 status2 : Z) (lineBreak1 lineBreak2 : jsstring)
    (header1 header2 : Row) (dataRows : list Row) (st : State) :
  isLineBreak lineBreak1 -> isLineBreak lineBreak2 ->
  hasContentRow header1 -> hasContentRow header2 ->
  Forall hasContentRow dataRows -> idle st ->
  let text1 := writeTable lineBreak1 (header1 :: dataRows) in
  let text2 := writeTable lineBreak2 (header2 :: dataRows) ++ lineBreak2 in
  let st1 := updateData manual (Response true status1 (Some text1)) st in
  let st2 := updateData false (Response true status2 (Some text2)) st1 in
  last (statusLog st2) = Some statusSinCambios
  /\ turismoDatos st2 = turismoDatos st1
  /\ heap st2 = heap st1
  /\ markerUpdates st2 = markerUpdates st1.
Proof.
  intros Hb1 Hb2 Hh1 Hh2 Hrows Hidle text1 text2 st1 st2.
  destruct (updateData_idle_after manual (Response true status1 (Some text1))
              st Hidle) as [Hidle1 _].
  destruct (updateData_unchanged status2 text2 st1 Hidle1)
    as (Hlog & Ht & Hh & _ & Hm).
  { unfold st1. rewrite (updateData_retains_fingerprint _ _ _ _ Hidle).
    unfold text1, text2.
    rewrite (proj1 (parseCSVData_written _ _ _ Hb1 Hh1 Hrows)).
    rewrite (proj2 (parseCSVData_written _ _ _ Hb2 Hh2 Hrows)).
    reflexivity. }
  exact (conj Hlog (conj Ht (conj Hh Hm))).
Qed.

Lemma another_layout_is_no_change_witness :
  let dataRows := [[js "1"; js "Ajijic"; js "20,3"; js "-103.25"]] in
  let text1 := writeTable [LF] ([js "Id"; js "Name"; js "Lat"; js "Lon"]
                                :: dataRows) in
  let text2 := writeTable [CR; LF] ([js "#"; js "Pueblo"] :: dataRows)
               ++ [CR; LF] in
  let st1 := updateData false (Response true 200 (Some text1)) initialState in
  let st2 := updateData false (Response true 200 (Some text2)) st1 in
  last (statusLog st2) = Some statusSinCambios
  /\ turismoDatos st2 = turismoDatos st1
  /\ heap st2 = heap st1
  /\ markerUpdates st2 = markerUpdates st1.
Proof.
  intros dataRows.
  apply (another_layout_is_no_change false 200 200 [LF] [CR; LF]
           [js "Id"; js "Name"; js "Lat"; js "Lon"] [js "#"; js "Pueblo"]
           dataRows initialState).
  - left. reflexivity.
  - right. right. reflexivity.
  - reflexivity.
  - reflexivity.
  - repeat constructor.
  - split; reflexivity.
Defined.
